(** * centauri_carbon_timelapse_export: a shallow embedding of [export.py]

    The program asks a printer to export a timelapse, waits for the file to
    become available (a websocket confirmation raced against HTTP polling),
    and downloads it.  With [--latest] it first picks the newest entry of a
    directory listing.

    Conventions of the embedding.
    - A Python [str] is a [string]; its characters are code points below 256.
    - Python integers are [Z] (the interpreter's optional limit on the length
      of a decimal string given to [int] is not modelled); the float delays
      are [Q]: every delay the program computes with its default factors is a
      dyadic rational, so no rounding takes place.
    - The [re] patterns of the source are values of [regex], run by a
      backtracking matcher that lists the matches in the order in which
      Python's engine tries them; the first element is the match [re] reports.
    - What the outside world answers (the listing page, the result of
      [json.loads] on an inbound message, the outcome of a probe or of a
      download attempt, the order in which the tasks are resumed and when) is
      an input of the model; what the program does to the outside world is a
      list of [effect]s, in program order.  A [print] is recorded by its
      template and the values it formats.
    - Library functions whose behaviour the program does not fix are
      parameters: [urllib.parse.urljoin], and the range of timestamps
      [time.gmtime] accepts.  Module [Url] gives instances for evaluation.
    - Faults of the environment that the program does not handle and that do
      not depend on its input data are left out: a websocket that cannot be
      opened or written to, a directory that cannot be made, an output stream
      that cannot be written. *)

From Stdlib Require Import Bool List Arith ZArith QArith Qminmax Lia.
From Stdlib Require Import Strings.Ascii Strings.String.
Import ListNotations.
Open Scope string_scope.
Open Scope Z_scope.

(** ** Characters and strings, as Python sees them *)

Module Chars.

Definition code (c : ascii) : N := N_of_ascii c.

Definition between (lo hi : N) (c : ascii) : bool :=
  ((lo <=? code c) && (code c <=? hi))%N.

(** [\d]: the decimal digits (below 256 these are ['0'..'9']). *)
Definition is_digit (c : ascii) : bool := between 48 57 c.

(** [\s] and [str.isspace]: TAB..CR, FS..US, space, NEL, NBSP. *)
Definition is_space (c : ascii) : bool :=
  between 9 13 c || between 28 32 c || (code c =? 133)%N || (code c =? 160)%N.

Definition is_upper (c : ascii) : bool := between 65 90 c.

(** [\w]: alphanumeric or underscore (the Latin-1 letters and numerics
    included). *)
Definition is_word (c : ascii) : bool :=
  is_digit c || is_upper c || between 97 122 c || (code c =? 95)%N
  || (code c =? 170)%N || (code c =? 178)%N || (code c =? 179)%N
  || (code c =? 181)%N || (code c =? 185)%N || (code c =? 186)%N
  || between 188 190 c || between 192 214 c || between 216 246 c
  || between 248 255 c.

(** Case folding as [re.IGNORECASE] applies it to the letters the program's
    patterns contain (all of them ASCII). *)
Definition lower (c : ascii) : ascii :=
  if is_upper c then ascii_of_N (code c + 32) else c.

Definition eq_ci (p c : ascii) : bool := Ascii.eqb (lower p) (lower c).

Definition any (_ : ascii) : bool := true.
Definition is_char (x : ascii) (c : ascii) : bool := Ascii.eqb x c.
Definition not_char (x : ascii) (c : ascii) : bool := negb (Ascii.eqb x c).

End Chars.

Module Str.

Fixpoint all (p : ascii -> bool) (s : string) : bool :=
  match s with
  | EmptyString => true
  | String c s' => p c && all p s'
  end.

(** [s.startswith(t)] *)
Fixpoint startswith (t s : string) : bool :=
  match t, s with
  | EmptyString, _ => true
  | String a t', String b s' => Ascii.eqb a b && startswith t' s'
  | String _ _, EmptyString => false
  end.

(** [t] is a prefix of [s] up to letter case. *)
Fixpoint startswith_ci (t s : string) : bool :=
  match t, s with
  | EmptyString, _ => true
  | String a t', String b s' => Chars.eq_ci a b && startswith_ci t' s'
  | String _ _, EmptyString => false
  end.

(** [t in s], and the same up to letter case. *)
Fixpoint contains (t s : string) : bool :=
  startswith t s ||
  match s with
  | EmptyString => false
  | String _ s' => contains t s'
  end.

Fixpoint contains_ci (t s : string) : bool :=
  startswith_ci t s ||
  match s with
  | EmptyString => false
  | String _ s' => contains_ci t s'
  end.

(** The number of positions of [s] at which [t] occurs, up to letter case. *)
Fixpoint count_ci (t s : string) : nat :=
  ((if startswith_ci t s then 1 else 0) +
   match s with
   | EmptyString => 0
   | String _ s' => count_ci t s'
   end)%nat.

(** [s.endswith(t)] *)
Fixpoint endswith (t s : string) : bool :=
  String.eqb t s ||
  match s with
  | EmptyString => false
  | String _ s' => endswith t s'
  end.

Fixpoint last (s : string) (d : option ascii) : option ascii :=
  match s with
  | EmptyString => d
  | String c s' => last s' (Some c)
  end.

(** [s[:-1]] *)
Fixpoint drop_last (s : string) : string :=
  match s with
  | EmptyString => EmptyString
  | String c EmptyString => EmptyString
  | String c s' => String c (drop_last s')
  end.

Fixpoint lstrip (s : string) : string :=
  match s with
  | String c s' => if Chars.is_space c then lstrip s' else s
  | EmptyString => EmptyString
  end.

Fixpoint rstrip (s : string) : string :=
  match s with
  | EmptyString => EmptyString
  | String c s' =>
      match rstrip s' with
      | EmptyString => if Chars.is_space c then EmptyString else String c EmptyString
      | r => String c r
      end
  end.

(** [s.strip()] *)
Definition strip (s : string) : string := rstrip (lstrip s).

(** Python truthiness of a string, and [a or b]. *)
Definition nonempty (s : string) : bool :=
  match s with EmptyString => false | _ => true end.

Definition or_else (a b : string) : string := if nonempty a then a else b.

(** [int(s)] for a string of the shape [-?\d+]. *)
Fixpoint digits_value (acc : Z) (s : string) : Z :=
  match s with
  | EmptyString => acc
  | String c s' => digits_value (10 * acc + (Z.of_N (Chars.code c) - 48)) s'
  end.

Definition to_int (s : string) : Z :=
  match s with
  | String "-" s' => - digits_value 0 s'
  | _ => digits_value 0 s
  end.

End Str.

(** ** The pattern matcher *)

Module Re.

(** The fragment of [re] syntax the program's patterns use.  Every pattern of
    the program that contains letters is compiled with [re.IGNORECASE], so a
    literal matches up to letter case. *)
Inductive regex : Type :=
| Lit (t : string)               (* literal text *)
| Cls (p : ascii -> bool)        (* one character of a class *)
| StarG (p : ascii -> bool)      (* [...]*   greedy *)
| StarL (p : ascii -> bool)      (* [...]*?  lazy *)
| PlusG (p : ascii -> bool)      (* [...]+   greedy *)
| Opt (r : regex)                (* r? *)
| Cat (r1 r2 : regex)
| Grp (n : nat) (r : regex)      (* capturing group number n *)
| NotAhead (r : regex)           (* (?!r) *)
| Bnd                            (* \b *)
| Eos.                           (* $ *)

(** One way of matching: the text consumed, what is left, the groups set. *)
Record hit := mkHit { taken : string; rest : string; groups : list (nat * string) }.

Definition nothing (s : string) : hit := mkHit "" s [].

Definition push (c : ascii) (h : hit) : hit :=
  mkHit (String c (taken h)) (rest h) (groups h).

Definition glue (h1 h2 : hit) : hit :=
  mkHit (taken h1 ++ taken h2) (rest h2) (groups h1 ++ groups h2).

Fixpoint lit (t s : string) : list hit :=
  match t, s with
  | EmptyString, _ => [nothing s]
  | String a t', String b s' =>
      if Chars.eq_ci a b then map (push b) (lit t' s') else []
  | String _ _, EmptyString => []
  end.

(** Longest first. *)
Fixpoint star_g (p : ascii -> bool) (s : string) : list hit :=
  match s with
  | String c s' => if p c then map (push c) (star_g p s') ++ [nothing s] else [nothing s]
  | EmptyString => [nothing s]
  end.

(** Shortest first. *)
Fixpoint star_l (p : ascii -> bool) (s : string) : list hit :=
  nothing s ::
  match s with
  | String c s' => if p c then map (push c) (star_l p s') else []
  | EmptyString => []
  end.

Definition plus_g (p : ascii -> bool) (s : string) : list hit :=
  match s with
  | String c s' => if p c then map (push c) (star_g p s') else []
  | EmptyString => []
  end.

Definition word_opt (c : option ascii) : bool :=
  match c with Some x => Chars.is_word x | None => false end.

Definition head_char (s : string) : option ascii :=
  match s with String c _ => Some c | EmptyString => None end.

(** [exec r prev s]: every way in which [r] matches a prefix of [s], in the
    order a backtracking engine finds them; [prev] is the character just
    before [s] in the subject, if any. *)
Fixpoint exec (r : regex) (prev : option ascii) (s : string) : list hit :=
  match r with
  | Lit t => lit t s
  | Cls p =>
      match s with
      | String c s' => if p c then [push c (nothing s')] else []
      | EmptyString => []
      end
  | StarG p => star_g p s
  | StarL p => star_l p s
  | PlusG p => plus_g p s
  | Opt r1 => exec r1 prev s ++ [nothing s]
  | Cat r1 r2 =>
      flat_map (fun h1 => map (glue h1) (exec r2 (Str.last (taken h1) prev) (rest h1)))
               (exec r1 prev s)
  | Grp n r1 =>
      map (fun h => mkHit (taken h) (rest h) ((n, taken h) :: groups h)) (exec r1 prev s)
  | NotAhead r1 =>
      match exec r1 prev s with
      | [] => [nothing s]
      | _ :: _ => []
      end
  | Bnd => if xorb (word_opt prev) (word_opt (head_char s)) then [nothing s] else []
  | Eos =>
      match s with
      | EmptyString => [nothing s]
      | String c EmptyString => if Chars.is_char "010" c then [nothing s] else []
      | _ => []
      end
  end.

(** [m.group(n)], the empty string when the group is not set. *)
Fixpoint group (n : nat) (g : list (nat * string)) : string :=
  match g with
  | [] => ""
  | (k, v) :: g' => if Nat.eqb k n then v else group n g'
  end.

(** [pattern.match(s)] *)
Definition match_ (r : regex) (s : string) : option hit :=
  List.hd_error (exec r None s).

(** [pattern.search(s)]: the leftmost position at which the pattern
    matches, and the first match there. *)
Fixpoint search_from (r : regex) (prev : option ascii) (s : string) : option hit :=
  match exec r prev s with
  | h :: _ => Some h
  | [] =>
      match s with
      | String c s' => search_from r (Some c) s'
      | EmptyString => None
      end
  end.

Definition search (r : regex) (s : string) : option hit := search_from r None s.

(** [pattern.finditer(s)]: the successive matches, none overlapping the one
    before; [skip] counts the characters of the last match still to pass. *)
Fixpoint finditer_from (r : regex) (prev : option ascii) (s : string) (skip : nat)
  {struct s} : list hit :=
  match skip with
  | S k =>
      match s with
      | String c s' => finditer_from r (Some c) s' k
      | EmptyString => []
      end
  | O =>
      match exec r prev s with
      | h :: _ =>
          h :: match s with
               | String c s' => finditer_from r (Some c) s' (pred (String.length (taken h)))
               | EmptyString => []
               end
      | [] =>
          match s with
          | String c s' => finditer_from r (Some c) s' 0
          | EmptyString => []
          end
      end
  end.

Definition finditer (r : regex) (s : string) : list hit := finditer_from r None s 0.

(** [pattern.findall(s)] for a pattern with one group. *)
Definition findall (r : regex) (s : string) : list string :=
  map (fun h => group 1 (groups h)) (finditer r s).

(** [pattern.sub('', s)]: the subject with every match removed. *)
Fixpoint remove_from (r : regex) (prev : option ascii) (s : string) (skip : nat)
  {struct s} : string :=
  match skip with
  | S k =>
      match s with
      | String c s' => remove_from r (Some c) s' k
      | EmptyString => ""
      end
  | O =>
      match exec r prev s with
      | h :: _ =>
          match s with
          | String c s' =>
              match taken h with
              | EmptyString => String c (remove_from r (Some c) s' 0)
              | String _ t => remove_from r (Some c) s' (String.length t)
              end
          | EmptyString => ""
          end
      | [] =>
          match s with
          | String c s' => String c (remove_from r (Some c) s' 0)
          | EmptyString => ""
          end
      end
  end.

Definition remove_all (r : regex) (s : string) : string := remove_from r None s 0.

Definition cat (rs : list regex) : regex := fold_right Cat (Lit "") rs.

End Re.

Declare Scope regex_scope.
Delimit Scope regex_scope with re.
Infix ">>" := Re.Cat (at level 61, right associativity) : regex_scope.

(** ** The listing resolver *)

Module Listing.
Import Re.
Local Open Scope regex_scope.

Definition dquote : ascii := "034"%char.
Definition quote_mark : string := String dquote "".

Definition not_gt : ascii -> bool := Chars.not_char ">".
Definition not_quote : ascii -> bool := Chars.not_char dquote.

(** [<tr\b[^>]*>([\s\S]*?)</tr>] *)
Definition row_re : regex :=
  Lit "<tr" >> Bnd >> StarG not_gt >> Lit ">" >> Grp 1 (StarL Chars.any) >> Lit "</tr>".

(** The patterns, quoted below with an apostrophe where the source has a
    double quote.  The lookahead of [link_re]: [(?![^']*\.mp4)]. *)
Definition no_mp4_ahead : regex := NotAhead (StarG not_quote >> Lit ".mp4").

(** [<a[^>]*href='(?![^']*\.mp4)([^']+)'[^>]*>([\s\S]*?)</a>] *)
Definition link_re : regex :=
  Lit "<a" >> StarG not_gt >> Lit ("href=" ++ quote_mark) >> no_mp4_ahead >>
  Grp 1 (PlusG not_quote) >> Lit quote_mark >> StarG not_gt >> Lit ">" >>
  Grp 2 (StarL Chars.any) >> Lit "</a>".

(** [<td[^>]*\bname\s*=\s*'?(-?\d+)'?[^>]*>] *)
Definition td_name_re : regex :=
  Lit "<td" >> StarG not_gt >> Bnd >> Lit "name" >> StarG Chars.is_space >> Lit "=" >>
  StarG Chars.is_space >> Opt (Lit quote_mark) >>
  Grp 1 (Opt (Lit "-") >> PlusG Chars.is_digit) >>
  Opt (Lit quote_mark) >> StarG not_gt >> Lit ">".

(** [<[^>]*>] *)
Definition tag_re : regex := Lit "<" >> StarG not_gt >> Lit ">".

(** [-?\d+$] *)
Definition int_re : regex := Opt (Lit "-") >> PlusG Chars.is_digit >> Eos.

(** The dictionary with the keys [name], [href] and [modified]. *)
Record entry := mkEntry { name : string; href : string; modified : Z }.

Definition is_match (m : option hit) : bool :=
  match m with Some _ => true | None => false end.

(** [[int(n) for n in td_name_re.findall(row) if re.match(r'-?\d+$', n)]] *)
Definition td_vals (row : string) : list Z :=
  map Str.to_int (filter (fun n => is_match (match_ int_re n)) (findall td_name_re row)).

(** [re.sub(r'<[^>]*>', '', link.group(2) or '').strip() or href] *)
Definition visible_name (link : hit) : string :=
  Str.or_else (Str.strip (remove_all tag_re (group 2 (groups link))))
              (group 1 (groups link)).

(** One turn of the loop over the rows: [m] is the match of [row_re],
    [latest] the value of the variable before the turn. *)
Definition row_step (latest : option entry) (m : hit) : option entry :=
  let row := group 1 (groups m) in
  match search link_re row with
  | None => latest                                        (* continue *)
  | Some link =>
      let href_ := group 1 (groups link) in
      let name_ := visible_name link in
      match td_vals row with
      | [] => latest                                      (* continue *)
      | modified_ :: _ =>
          match latest with
          | None => Some (mkEntry name_ href_ modified_)
          | Some l =>
              if modified l <? modified_
              then Some (mkEntry name_ href_ modified_)
              else latest
          end
      end
  end.

Definition parse_latest_from_listing (html : string) : option entry :=
  fold_left row_step (finditer row_re html) None.

(** The rows of a listing that have a usable anchor and a parsed ordinal,
    each with the entry it stands for, in document order. *)
Definition usable_anchor (row : string) : option hit := search link_re row.





(** The text of an anchor element: what stands between [<a] and the [>]
    that closes the opening tag is [before], the attribute [href] with the
    reference [target] in double quotes, and [after]; [body] is the text
    the anchor shows. *)
Definition attributes (before target after : string) : string :=
  before ++ "href=" ++ quote_mark ++ target ++ quote_mark ++ after.

Definition anchor (before target after body : string) : string :=
  "<a" ++ attributes before target after ++ ">" ++ body ++ "</a>".

(** A reference as [link_re] can capture one: not empty, no double quote. *)
Definition reference (target : string) : bool :=
  Str.nonempty target && Str.all not_quote target.

(** The opening tag holds the text [href='] only where its attribute
    [href] begins. *)
Definition one_href (before target after : string) : bool :=
  Nat.eqb (Str.count_ci ("href=" ++ quote_mark) (attributes before target after)) 1.

(** An entry whose reference was captured by [link_re] in some row. *)
Definition from_anchor (e : entry) : Prop :=
  exists row link, Re.search link_re row = Some link /\ href e = group 1 (groups link).

(** Writing test documents: an apostrophe stands for a double quote. *)
Fixpoint q (s : string) : string :=
  match s with
  | EmptyString => EmptyString
  | String c s' => String (if Chars.is_char "'" c then dquote else c) (q s')
  end.

End Listing.

(** ** JSON values, with the Python operations the program applies to them *)

Module Json.

#[local] Set Warnings "-register-all".

(** What [json.loads] returns.  An object is listed as its items; a float
    is given by its exact value. *)
Inductive value : Type :=
| Null
| Bool (b : bool)
| Int (z : Z)
| Float (x : Q)
| NonFinite                       (* NaN, Infinity, -Infinity *)
| Str (s : string)
| Arr (items : list value)
| Obj (items : list (string * value)).

(** Truth value of [v] in a condition or as the left operand of [or]. *)
Definition truthy (v : value) : bool :=
  match v with
  | Null => false
  | Bool b => b
  | Int z => negb (z =? 0)
  | Float x => negb (Qeq_bool x 0)
  | NonFinite => true
  | Str s => Str.nonempty s
  | Arr items => match items with [] => false | _ => true end
  | Obj items => match items with [] => false | _ => true end
  end.

(** [v or {}] and [v or []] *)
Definition or_dict (v : value) : value := if truthy v then v else Obj [].
Definition or_list (v : value) : value := if truthy v then v else Arr [].

(** The value of a key; [json.loads] keeps the last of repeated keys. *)
Fixpoint lookup (k : string) (items : list (string * value)) : option value :=
  match items with
  | [] => None
  | (k', v) :: rest =>
      match lookup k rest with
      | Some v' => Some v'
      | None => if String.eqb k' k then Some v else None
      end
  end.

(** [v.get(k)]: [None] is Python's [None] result here written [Null]; the
    outer [option] is [None] when [v] has no method [get] (AttributeError). *)
Definition get (v : value) (k : string) : option value :=
  match v with
  | Obj items => Some (match lookup k items with Some x => x | None => Null end)
  | _ => None
  end.

(** [urls[0] if urls else None]; [None] when the subscript raises (a number
    or [True] is not subscriptable, an object has no key [0]). *)
Definition first_or_none (urls : value) : option value :=
  if truthy urls then
    match urls with
    | Arr (x :: _) => Some x
    | Str (String c _) => Some (Str (String c ""))
    | _ => None
    end
  else Some Null.

(** [v == n] for an integer [n] *)
Definition eq_int (v : value) (n : Z) : bool :=
  match v with
  | Int z => z =? n
  | Float x => Qeq_bool x (inject_Z n)
  | Bool b => (if b then 1 else 0) =? n
  | _ => false
  end.

(** [v == s] for a string [s] *)
Definition eq_str (v : value) (s : string) : bool :=
  match v with
  | Str x => String.eqb x s
  | _ => false
  end.

End Json.

(** ** What the program does to the outside world *)

(** The lines the program prints, one constructor per [print] of the source,
    with the values it formats. *)
Inductive line : Type :=
| LAttempt (attempt : Z) (url dest : string)  (* [download] Attempt n: url -> dest *)
| LSuccess                                    (* [download] Success *)
| LFailed (cause : string)                    (* [download] Failed: e *)
| LFetching (page_url : string)               (* [latest] Fetching listing: .. *)
| LFetchFailed (cause : string)               (* [latest] Failed to fetch listing: e *)
| LNoEntries                                  (* [latest] Could not find any entries .. *)
| LLatestItem (vis_name href : string) (modified : Z)
| LResolved (mp4_path : string)               (* [latest] Resolved MP4 path: .. *)
| LExportRequested (target : string)          (* Export requested for: .. *)
| LRecvError                                  (* [ws] recv error/closed *)
| L323For (got : Json.value)                  (* [ws] 323 for: .. *)
| L323Different (got : Json.value)            (* [ws] 323 for different file: .. *)
| LTimedOut (max_wait : Z) (target : string)  (* ERROR: timed out after ..s waiting for .. *)
| LReady (http_url : string)                  (* Timelapse ready at: .. *)
| LHeadsUp                                    (* (Heads-up: WS said ready, ..) *)
| LDownloadUrl (http_url : string)            (* Download URL: .. *)
| LDownloadFailed (http_url : string)         (* ERROR: download failed for .. *)
| LSaved (dest : string)                      (* Saved: .. *)
| LUsage.                                     (* ERROR: provide a file path or use --latest *)

Inductive effect : Type :=
| Stdout (l : line)
| Stderr (l : line)
| SentExport (msg : Json.value)   (* ws.send(json.dumps(make_export_cmd(..))) *)
| SentPing                        (* ws.send of the text ping *)
| Slept (secs : Q)                (* time.sleep *)
| MakeDirs (dir : string)         (* os.makedirs(dir, exist_ok=True) *)
| UrlOpen (url : string)          (* urlopen(url) of a download attempt *)
| OpenWrite (dest : string).      (* open(dest, wb): the file is created or truncated *)

(** How a call ends: it returns, [sys.exit(code)] is raised, or another
    exception goes uncaught. *)
Inductive ending : Type :=
| Returned
| Exit (code : Z)
| Uncaught.

(** The effects that touch the local file system. *)
Definition touches_fs (e : effect) : bool :=
  match e with
  | MakeDirs _ | OpenWrite _ => true
  | _ => false
  end.

(** The effects by which the downloader shows it was called. *)
Definition is_download (e : effect) : bool :=
  match e with
  | UrlOpen _ | OpenWrite _ | Slept _ => true
  | Stdout (LAttempt _ _ _) | Stdout LSuccess | Stderr (LFailed _) => true
  | _ => false
  end.

(** What the tasks of the watch print or send. *)
Definition from_watch (e : effect) : bool :=
  match e with
  | SentPing | Stderr LRecvError | Stdout (L323For _) | Stderr (L323Different _) => true
  | _ => false
  end.

Definition not_heads_up (e : effect) : bool :=
  match e with Stdout LHeadsUp => false | _ => true end.

Definition is_sent_export (e : effect) : bool :=
  match e with SentExport _ => true | _ => false end.

Definition is_open_write (e : effect) : bool :=
  match e with OpenWrite _ => true | _ => false end.

(** An effect that neither belongs to the downloader nor touches the local
    file system. *)
Definition quiet (e : effect) : bool := negb (is_download e || touches_fs e).

(** The lines that are printed in verbose mode only. *)
Definition only_verbose (e : effect) : bool :=
  match e with
  | Stdout (LFetching _) | Stdout (LLatestItem _ _ _) | Stdout (LResolved _) => true
  | Stderr LRecvError | Stdout (L323For _) | Stderr (L323Different _) => true
  | Stdout (LAttempt _ _ _) | Stdout LSuccess => true
  | _ => false
  end.

Definition always_shown (e : effect) : bool := negb (only_verbose e).

(** ** The push watcher's treatment of one message *)

Module Push.
Import Json.
Local Open Scope list_scope.

(** [make_export_cmd(path)], given the token [uuid4().hex] and the clock. *)
Definition make_export_cmd (path request_id : string) (now_ms : Z) : value :=
  Obj [ ("Id", Str "");
        ("Data", Obj [ ("Cmd", Int 323);
                       ("Data", Obj [ ("Url", Arr [Str path]) ]);
                       ("RequestID", Str request_id);
                       ("MainboardID", Str "");
                       ("TimeStamp", Int now_ms);
                       ("From", Int 1) ]) ].

(** An inbound message, as [json.loads] leaves it. *)
Inductive inbound : Type :=
| NotJson                 (* json.loads raised *)
| Doc (data : value).

(** What [await asyncio.wait_for(ws.recv(), ..)] comes back with. *)
Inductive received : Type :=
| RecvTimeout             (* asyncio.TimeoutError *)
| RecvFailed              (* any other exception: connection closed or broken *)
| RecvMsg (m : inbound).

(** How the body of the loop ends for one message. *)
Inductive verdict : Type :=
| Continue                (* next turn of the loop *)
| Confirmed               (* ws_ready.set(); return *)
| Crashed.                (* an exception the watcher does not catch *)

Definition when (b : bool) (l : list effect) : list effect := if b then l else [].

(** The body of the loop of [ws_waiter] from [json.loads] on. *)
Definition on_message (verbose : bool) (target_mp4 : string) (m : inbound)
  : list effect * verdict :=
  match m with
  | NotJson => ([], Continue)
  | Doc data =>
      match get (or_dict data) "Data" with
      | None => ([], Crashed)
      | Some d0 =>
          let d := or_dict d0 in
          match get d "Cmd" with
          | None => ([], Crashed)
          | Some cmd =>
              if eq_int cmd 323 then
                match get d "Data" with
                | None => ([], Crashed)
                | Some dd =>
                    match get (or_dict dd) "Url" with
                    | None => ([], Crashed)
                    | Some u =>
                        match first_or_none (or_list u) with
                        | None => ([], Crashed)
                        | Some got =>
                            let seen := when verbose [Stdout (L323For got)] in
                            if eq_str got target_mp4 then (seen, Confirmed)
                            else
                              (seen ++
                               when (verbose && negb (eq_str got target_mp4) && truthy got)
                                    [Stderr (L323Different got)],
                               Continue)
                        end
                    end
                end
              else ([], Continue)
          end
      end
  end.

(** The message in the words of the specification: the command code under
    [Data], and the first element of the path list [Url] under [Data.Data].
    A field that is absent, or asked of a value that is no object, reads as
    [Null]. *)
Definition field (v : value) (k : string) : value :=
  match v with
  | Obj items => match lookup k items with Some x => x | None => Null end
  | _ => Null
  end.

Definition is_confirmation (data : value) : bool :=
  eq_int (field (field data "Data") "Cmd") 323.

(** A value of which the watcher can ask a key: an object, or a value that
    [or {}] replaces by the empty object. *)
Definition keyed (v : value) : bool :=
  match v with
  | Obj _ => true
  | _ => negb (truthy v)
  end.

(** A value of which the watcher can take the first element: a list, a
    string, or a value that [or []] replaces by the empty list. *)
Definition listed (v : value) : bool :=
  match v with
  | Arr _ | Str _ => true
  | _ => negb (truthy v)
  end.

(** The shape the watcher can take apart: the document and its [Data] are
    objects or falsy, and under the confirmation code so is [Data.Data],
    whose [Url] is a list, a string or falsy. *)
Definition well_shaped (data : value) : bool :=
  keyed data && keyed (field data "Data") &&
  (negb (is_confirmation data) ||
   keyed (field (field data "Data") "Data") &&
   listed (field (field (field data "Data") "Data") "Url")).

Definition carried_first (data : value) : option value :=
  if is_confirmation data then
    match field (field (field data "Data") "Data") "Url" with
    | Arr (x :: _) => Some x
    | Str (String c _) => Some (Str (String c ""))
    | _ => None
    end
  else None.

End Push.

(** ** The downloader *)

Module Download.
Local Open Scope list_scope.

(** How one attempt goes. *)
Inductive attempt : Type :=
| Fetched                        (* the body was streamed to the file *)
| Refused (cause : string)       (* urlopen or open raised: nothing was written *)
| Broken (cause : string).       (* the file was opened, then a read or write raised *)

Definition ceiling : Q := 8.

(** The turns of [for attempt in range(1, retries + 1)] that remain: [todo]
    counts them, [attempt_no] is the loop variable, [wait] the local
    variable of that name.  [answers n] says how attempt number [n] goes. *)
Fixpoint attempts (answers : nat -> attempt) (url dest_path : string)
    (retries : Z) (backoff : Q) (verbose : bool)
    (todo : nat) (attempt_no : Z) (wait : Q) : bool * list effect :=
  match todo with
  | O => (false, [])                                         (* return False *)
  | S todo' =>
      let start := Push.when verbose [Stdout (LAttempt attempt_no url dest_path)]
                   ++ [UrlOpen url] in
      let failed (opened : list effect) (e : string) :=
        if attempt_no =? retries
        then (false, start ++ opened ++ [Stderr (LFailed e)])
        else
          let '(ok, more) :=
            attempts answers url dest_path retries backoff verbose
                     todo' (attempt_no + 1) (Qmin (wait * backoff) ceiling) in
          (ok, start ++ opened ++ [Slept wait] ++ more) in
      match answers (Z.to_nat attempt_no) with
      | Fetched =>
          (true, start ++ [OpenWrite dest_path] ++ Push.when verbose [Stdout LSuccess])
      | Refused e => failed [] e
      | Broken e => failed [OpenWrite dest_path] e
      end
  end.

(** [download_file(url, dest_path, timeout, retries, backoff, verbose)] *)
Definition download_file (answers : nat -> attempt) (url dest_path : string)
    (retries : Z) (backoff : Q) (verbose : bool) : bool * list effect :=
  attempts answers url dest_path retries backoff verbose (Z.to_nat retries) 1 1.

(** The defaults of the signature, which [run] relies on. *)
Definition default_retries : Z := 5.
Definition default_backoff : Q := 3 # 2.

(** Readings of an effect list. *)
Definition opened_urls (l : list effect) : nat :=
  List.length (filter (fun e => match e with UrlOpen _ => true | _ => false end) l).

Fixpoint sleeps (l : list effect) : list Q :=
  match l with
  | [] => []
  | Slept w :: l' => w :: sleeps l'
  | _ :: l' => sleeps l'
  end.

(** Each delay after the first is the one before times the factor, clamped. *)
Fixpoint grows (backoff : Q) (ws : list Q) : Prop :=
  match ws with
  | w1 :: ((w2 :: _) as rest) => (w2 == Qmin (w1 * backoff) ceiling)%Q /\ grows backoff rest
  | _ => True
  end.

(** The delays are the successive values of [wait], starting from [w]. *)
Fixpoint follows (backoff w : Q) (ws : list Q) : Prop :=
  match ws with
  | [] => True
  | x :: ws' => x = w /\ follows backoff (Qmin (w * backoff) ceiling) ws'
  end.

Fixpoint nondecreasing (ws : list Q) : Prop :=
  match ws with
  | w1 :: ((w2 :: _) as rest) => (w1 <= w2)%Q /\ nondecreasing rest
  | _ => True
  end.

(** The cause of the last attempt among the first [n], if it failed. *)
Definition cause_of (a : attempt) : option string :=
  match a with
  | Fetched => None
  | Refused e | Broken e => Some e
  end.

End Download.

(** ** Paths *)

Module Path.

(** The text after the last slash: [os.path.basename]. *)
Fixpoint basename_from (acc s : string) : string :=
  match s with
  | EmptyString => acc
  | String c s' => if Chars.is_char "/" c then basename_from s' s' else basename_from acc s'
  end.

Definition basename (p : string) : string := basename_from p p.

(** [os.path.join(a, b)] *)
Definition join (a b : string) : string :=
  if Str.startswith "/" b then b
  else if negb (Str.nonempty a) || Str.endswith "/" a then a ++ b
  else a ++ "/" ++ b.

(** [p if p.endswith('/') else p + '/'] *)
Definition with_slash (p : string) : string :=
  if Str.endswith "/" p then p else p ++ "/".

(** [p[:-1] if p.endswith('/') else p] *)
Definition without_slash (p : string) : string :=
  if Str.endswith "/" p then Str.drop_last p else p.

End Path.

(** ** Joining plain paths *)

Module Url.
Local Open Scope list_scope.

(** [s.split('/')] *)
Fixpoint split (s : string) : list string :=
  match s with
  | EmptyString => [EmptyString]
  | String c s' =>
      if Chars.is_char "/" c then EmptyString :: split s'
      else
        match split s' with
        | seg :: more => String c seg :: more
        | [] => [String c EmptyString]
        end
  end.

(** ['/'.join(l)] *)
Fixpoint join (l : list string) : string :=
  match l with
  | [] => EmptyString
  | [seg] => seg
  | seg :: more => (seg ++ "/" ++ join more)%string
  end.

(** [segments[1:-1] = filter(None, segments[1:-1])] *)
Definition squeeze (segments : list string) : list string :=
  match segments with
  | first :: ((_ :: _) as others) =>
      first :: filter Str.nonempty (removelast others) ++ [List.last others EmptyString]
  | _ => segments
  end.

(** The loop over the segments: [..] pops, [.] is skipped. *)
Fixpoint resolve (segments resolved_path : list string) : list string :=
  match segments with
  | [] => resolved_path
  | seg :: more =>
      if String.eqb seg ".." then resolve more (removelast resolved_path)
      else if String.eqb seg "." then resolve more resolved_path
      else resolve more (resolved_path ++ [seg])
  end.

(** The path of the result, from the path of the base and a reference that
    is a non-empty plain path. *)
Definition join_paths (bpath url : string) : string :=
  let base_parts := split bpath in
  let base_parts :=
    if Str.nonempty (List.last base_parts EmptyString)
    then removelast base_parts else base_parts in
  let segments :=
    if Str.startswith "/" url then split url
    else squeeze (base_parts ++ split url) in
  let resolved_path := resolve segments [] in
  let final := List.last segments EmptyString in
  let resolved_path :=
    if String.eqb final "." || String.eqb final ".."
    then resolved_path ++ [EmptyString] else resolved_path in
  Str.or_else (join resolved_path) "/".

(** The text up to the first slash, and the text from it on. *)
Fixpoint upto_slash (s : string) : string * string :=
  match s with
  | EmptyString => (EmptyString, EmptyString)
  | String c s' =>
      if Chars.is_char "/" c then (EmptyString, s)
      else let '(a, b) := upto_slash s' in (String c a, b)
  end.

Fixpoint drop (n : nat) (s : string) : string :=
  match n, s with
  | S n', String _ s' => drop n' s'
  | _, _ => s
  end.

(** A base [http://host] followed by a path is split into the two; any other
    base is taken to be a path. *)
Definition split_origin (base : string) : string * string :=
  if Str.startswith "http://" base then
    let '(authority, bpath) := upto_slash (drop 7 base) in
    (("http://" ++ authority)%string, bpath)
  else (EmptyString, base).

(** [urllib.parse.urljoin(base, url)] as CPython computes it when [base] is
    a plain path or [http://host] followed by a plain path, and [url] is a
    plain path: no scheme or authority in [url], no parameters, query or
    fragment in either, and none of the characters [urlsplit] removes. *)
Definition urljoin_paths (base url : string) : string :=
  if negb (Str.nonempty base) then url
  else if negb (Str.nonempty url) then base
  else
    let '(origin, bpath) := split_origin base in
    (origin ++ join_paths bpath url)%string.

(** The timestamps [time.gmtime] accepts where [time_t] has 64 bits and
    the year is a C [int] (glibc on a 64-bit machine). *)
Definition gmtime_ok_64 (t : Z) : bool :=
  (-67768040609740800 <=? t) && (t <=? 67767976233532799).

End Url.

(** ** The completion watch *)

Module Watch.
Import Push.
Local Open Scope list_scope.

(** An asyncio task: still running, returned, ended by an exception it did
    not catch, or one on which [cancel()] has been called.  Such a task
    takes no further turn; the loop marks it done only when it next runs,
    and [run] does not look at it again. *)
Inductive task : Type := Running | Finished | Failed | Cancelled.

(** [t.done()] *)
Definition done (t : task) : bool :=
  match t with
  | Running | Cancelled => false
  | Finished | Failed => true
  end.

(** The two events, the three tasks, the local [delay] of the poll watcher
    (the value it has when the watcher is next at its loop test), and what
    the tasks have printed or sent so far. *)
Record state := mkState {
  ws_ready : bool;
  http_ready : bool;
  tws : task;
  thttp : task;
  ka : task;
  delay : Q;
  shown : list effect
}.

Definition initial : state := mkState false false Running Running Running (3 # 2) [].

(** A task is resumed.  The time of the resumption, in milliseconds since
    the watch began, comes with it in the trace. *)
Inductive event : Type :=
| Recv (r : received)    (* the push watcher gets the outcome of its receive *)
| Probe (found : bool)   (* the poll watcher is at its loop test; [found] is what
                            [http_exists] answers if it is called *)
| Ping (sent : bool).    (* the keepalive has slept; [sent] is false when its send raises *)

(** One turn of [ws_waiter]. *)
Definition ws_waiter_turn (verbose : bool) (target_mp4 : string)
    (st : state) (r : received) : state :=
  match tws st with
  | Running =>
      if ws_ready st then
        mkState (ws_ready st) (http_ready st) Finished (thttp st) (ka st) (delay st) (shown st)
      else
        match r with
        | RecvTimeout => st                                            (* continue *)
        | RecvFailed =>                                                (* break *)
            mkState (ws_ready st) (http_ready st) Finished (thttp st) (ka st) (delay st)
                    (shown st ++ when verbose [Stderr LRecvError])
        | RecvMsg m =>
            let '(out, v) := on_message verbose target_mp4 m in
            match v with
            | Continue =>
                mkState (ws_ready st) (http_ready st) Running (thttp st) (ka st) (delay st)
                        (shown st ++ out)
            | Confirmed =>
                mkState true (http_ready st) Finished (thttp st) (ka st) (delay st)
                        (shown st ++ out)
            | Crashed =>
                mkState (ws_ready st) (http_ready st) Failed (thttp st) (ka st) (delay st)
                        (shown st ++ out)
            end
        end
  | _ => st
  end.

(** One turn of [http_waiter], at [now] milliseconds. *)
Definition http_waiter_turn (max_wait : Z) (st : state) (now : Z) (found : bool) : state :=
  match thttp st with
  | Running =>
      if (now <? 1000 * max_wait) && negb (http_ready st) then
        if found then
          mkState (ws_ready st) true (tws st) Finished (ka st) (delay st) (shown st)
        else
          mkState (ws_ready st) (http_ready st) (tws st) Running (ka st)
                  (Qmin (delay st * (3 # 2)) 5) (shown st)
      else
        mkState (ws_ready st) (http_ready st) (tws st) Finished (ka st) (delay st) (shown st)
  | _ => st
  end.

(** One turn of [keepalive]. *)
Definition keepalive_turn (st : state) (sent : bool) : state :=
  match ka st with
  | Running =>
      if sent then
        mkState (ws_ready st) (http_ready st) (tws st) (thttp st) Running (delay st)
                (shown st ++ [SentPing])
      else
        mkState (ws_ready st) (http_ready st) (tws st) (thttp st) Finished (delay st) (shown st)
  | _ => st
  end.

Definition step (verbose : bool) (target_mp4 : string) (max_wait : Z)
    (st : state) (now : Z) (ev : event) : state :=
  match ev with
  | Recv r => ws_waiter_turn verbose target_mp4 st r
  | Probe found => http_waiter_turn max_wait st now found
  | Ping sent => keepalive_turn st sent
  end.

(** [asyncio.wait({tws, thttp}, timeout=max_wait, return_when=FIRST_COMPLETED)]:
    the tasks take their turns in the order of the trace until one of the two
    watchers is done or the timeout is reached (a trace that ends has nothing
    more happen before the timeout).  The result is the state and the time at
    which the call returns.

    The schedule is the simplest one the loop allows: [run] is resumed in
    the turn in which a watcher finishes or the timeout falls, and a turn
    takes no time.  On the loop itself [run] is resumed a few turns later,
    so that a task that is ready in between still takes its turn, and a
    probe holds the loop up for as long as [http_exists] blocks; a trace
    describes a run in which neither happens. *)
Fixpoint wait (verbose : bool) (target_mp4 : string) (max_wait : Z)
    (st : state) (trace : list (Z * event)) : state * Z :=
  match trace with
  | [] => (st, 1000 * max_wait)
  | (now, ev) :: later =>
      if 1000 * max_wait <=? now then (st, 1000 * max_wait)
      else
        let st' := step verbose target_mp4 max_wait st now ev in
        if done (tws st') || done (thttp st') then (st', now)
        else wait verbose target_mp4 max_wait st' later
  end.

(** The push watcher handles a sequence of inbound messages, one per turn. *)
Definition hear (verbose : bool) (target_mp4 : string) (st : state) (msgs : list inbound)
  : state :=
  fold_left (fun s m => ws_waiter_turn verbose target_mp4 s (RecvMsg m)) msgs st.

(** [t.cancel()] *)
Definition cancel (t : task) : task :=
  match t with Running => Cancelled | _ => t end.

(** The [finally] block: the watchers that are not done are cancelled. *)
Definition cancel_watchers (st : state) : state :=
  mkState (ws_ready st) (http_ready st) (cancel (tws st)) (cancel (thttp st)) (ka st)
          (delay st) (shown st).

(** The outcome as the specification names it. *)
Inductive completion : Type := ConfirmedByPush | ConfirmedByPoll | TimedOut.

Definition outcome (st : state) : completion :=
  if ws_ready st then ConfirmedByPush
  else if http_ready st then ConfirmedByPoll
  else TimedOut.

(** An event that sets one of the two flags when it is handled. *)
Definition confirms (verbose : bool) (target_mp4 : string) (ev : event) : bool :=
  match ev with
  | Recv (RecvMsg m) =>
      match snd (on_message verbose target_mp4 m) with Confirmed => true | _ => false end
  | Probe found => found
  | _ => false
  end.

(** An event that ends neither watcher when it is handled. *)
Definition idle (verbose : bool) (target_mp4 : string) (ev : event) : bool :=
  match ev with
  | Recv RecvTimeout => true
  | Recv RecvFailed => false
  | Recv (RecvMsg m) =>
      match snd (on_message verbose target_mp4 m) with Continue => true | _ => false end
  | Probe found => negb found
  | Ping _ => true
  end.

(** The events of a stretch of the trace are idle and fall before the timeout. *)
Definition uneventful (verbose : bool) (target_mp4 : string) (max_wait : Z)
    (stretch : list (Z * event)) : bool :=
  forallb (fun te => idle verbose target_mp4 (snd te) && (fst te <? 1000 * max_wait)) stretch.

(** Both watchers are still at work and neither flag is set. *)
Definition watching (st : state) : Prop :=
  tws st = Running /\ thttp st = Running /\ ws_ready st = false /\ http_ready st = false.

(** The next sleep of the poll watcher lies between its first value and the
    ceiling. *)
Definition delay_in_range (st : state) : Prop :=
  (3 # 2 <= delay st)%Q /\ (delay st <= 5)%Q.

(** The events of a trace come in the order of their times. *)
Fixpoint in_order (trace : list (Z * event)) : Prop :=
  match trace with
  | (t1, _) :: (((t2, _) :: _) as later) => t1 <= t2 /\ in_order later
  | _ => True
  end.

Definition is_ping (ev : event) : bool :=
  match ev with Ping _ => true | _ => false end.

(** The trace with the turns of the keepalive task taken out. *)
Definition without_pings (trace : list (Z * event)) : list (Z * event) :=
  filter (fun te => negb (is_ping (snd te))) trace.

Definition not_sent_ping (e : effect) : bool :=
  match e with SentPing => false | _ => true end.

End Watch.

(** ** The orchestration: [run], [find_latest_mp4_path] and [main] *)

Module App.
Import Watch.
Local Open Scope list_scope.

(** What the outside world does during one call of [run]. *)
Record world := mkWorld {
  request_id : string;                  (* uuid.uuid4().hex *)
  now_ms : Z;                           (* int(time.time() * 1000) *)
  trace : list (Z * event);             (* the turns of the tasks during the watch *)
  post_probe : bool;                    (* the answer to the probe after the watch *)
  answers : nat -> Download.attempt     (* how each download attempt goes *)
}.

Record result := mkResult {
  effects : list effect;
  ended : ending;
  waited_ms : Z;                        (* when asyncio.wait returned *)
  final : state
}.

Definition http_url_of (host target_mp4 : string) : string :=
  ("http://" ++ host ++ target_mp4)%string.

(** [run(host, target_mp4, check, max_wait, verbose, download_dir, url_only)] *)
Definition run (w : world) (host target_mp4 : string) (check : bool) (max_wait : Z)
    (verbose : bool) (download_dir : string) (url_only : bool) : result :=
  let http_url := http_url_of host target_mp4 in
  let filename := Path.basename target_mp4 in
  let dest_path := Path.join download_dir filename in
  let sent := [ SentExport (Push.make_export_cmd target_mp4 (request_id w) (now_ms w));
                Stdout (LExportRequested target_mp4) ] in
  let '(st0, at_ms) := wait verbose target_mp4 max_wait initial (trace w) in
  let st1 := cancel_watchers st0 in
  let ok := ws_ready st1 || http_ready st1 in
  let st2 :=
    if ok && check && negb (http_ready st1) then
      if post_probe w then
        mkState (ws_ready st1) true (tws st1) (thttp st1) (ka st1) (delay st1) (shown st1)
      else st1
    else st1 in
  let st :=
    mkState (ws_ready st2) (http_ready st2) (tws st2) (thttp st2) (cancel (ka st2))
            (delay st2) (shown st2) in
  if negb ok then
    mkResult (sent ++ shown st ++ [Stderr (LTimedOut max_wait target_mp4)]) (Exit 1) at_ms st
  else
    let ready := [Stdout (LReady http_url)]
                 ++ Push.when (check && negb (http_ready st)) [Stdout LHeadsUp] in
    if url_only then
      mkResult (sent ++ shown st ++ ready ++ [Stdout (LDownloadUrl http_url)]) Returned at_ms st
    else
      let '(success, dl) :=
        Download.download_file (answers w) http_url dest_path
          Download.default_retries Download.default_backoff verbose in
      let upto := sent ++ shown st ++ ready ++ [MakeDirs download_dir] ++ dl in
      if negb success then
        mkResult (upto ++ [Stderr (LDownloadFailed http_url)]) (Exit 2) at_ms st
      else
        mkResult (upto ++ [Stdout (LSaved dest_path)]) Returned at_ms st.

(** What [http_get(page_url)] comes back with. *)
Inductive fetch : Type :=
| Page (html : string)
| FetchError (cause : string).

(** How [find_latest_mp4_path] ends. *)
Inductive resolution : Type :=
| Resolved (mp4_path : string)   (* return mp4_path *)
| Stopped (code : Z)             (* sys.exit(code) *)
| Raised.                        (* an exception nothing catches *)

Section Resolve.

(** [urllib.parse.urljoin] *)
Variable urljoin : string -> string -> string.

(** Whether [time.gmtime] accepts a timestamp; outside the range of the
    platform it raises. *)
Variable gmtime_ok : Z -> bool.

(** The value of [candidate_base] before the trailing slash is removed. *)
Definition candidate_base (list_path href : string) : string :=
  if Str.startswith "/" href then href
  else urljoin (Path.with_slash list_path) href.

Definition mp4_path_of (list_path href : string) : string :=
  (Path.without_slash (candidate_base list_path href) ++ ".mp4")%string.

(** [find_latest_mp4_path(host, list_path, verbose)].  In verbose mode the
    timestamp is formatted before the two lines about the latest item are
    printed. *)
Definition find_latest_mp4_path (page : fetch) (host list_path : string) (verbose : bool)
  : list effect * resolution :=
  let base_url := ("http://" ++ host)%string in
  let page_url := urljoin base_url (Path.with_slash list_path) in
  let fetching := Push.when verbose [Stdout (LFetching page_url)] in
  match page with
  | FetchError e => (fetching ++ [Stderr (LFetchFailed e)], Stopped 1)
  | Page html =>
      match Listing.parse_latest_from_listing html with
      | None => (fetching ++ [Stderr LNoEntries], Stopped 1)
      | Some latest =>
          let vis_name := Path.without_slash (Listing.name latest) in
          let href := Listing.href latest in
          let mp4_path := mp4_path_of list_path href in
          if verbose then
            if gmtime_ok (Listing.modified latest) then
              (fetching ++
               [ Stdout (LLatestItem vis_name href (Listing.modified latest));
                 Stdout (LResolved mp4_path) ],
               Resolved mp4_path)
            else (fetching, Raised)
          else (fetching, Resolved mp4_path)
      end
  end.

(** The parsed command line. *)
Record args := mkArgs {
  host : string;
  file : option string;
  check : bool;
  timeout : Z;
  verbose : bool;
  latest : bool;
  list_path : string;
  out_dir : string;
  url_only : bool
}.

(** [if not args.file] *)
Definition no_file (f : option string) : bool :=
  match f with
  | None => true
  | Some s => negb (Str.nonempty s)
  end.

(** [main()], after [parse_args]: the effects and the way the process ends. *)
Definition main (a : args) (page : fetch) (w : world) : list effect * ending :=
  if latest a then
    match find_latest_mp4_path page (host a) (list_path a) (verbose a) with
    | (fx, Stopped code) => (fx, Exit code)
    | (fx, Raised) => (fx, Uncaught)
    | (fx, Resolved target_mp4) =>
        let r := run w (host a) target_mp4 (check a) (timeout a) (verbose a)
                     (out_dir a) (url_only a) in
        (fx ++ effects r, ended r)
    end
  else if no_file (file a) then ([Stderr LUsage], Exit 2)
  else
    let target_mp4 :=
      (list_path a ++ match file a with Some f => f | None => "" end)%string in
    let r := run w (host a) target_mp4 (check a) (timeout a) (verbose a)
                 (out_dir a) (url_only a) in
    (effects r, ended r).

(** The path [main] hands to [run], when it gets that far. *)
Definition target_of (a : args) (page : fetch) : option string :=
  if latest a then
    match snd (find_latest_mp4_path page (host a) (list_path a) (verbose a)) with
    | Resolved target_mp4 => Some target_mp4
    | _ => None
    end
  else if no_file (file a) then None
  else Some (list_path a ++ match file a with Some f => f | None => "" end)%string.

End Resolve.

(** The exit status the shell sees; after an uncaught exception the
    interpreter exits with status 1. *)
Definition exit_status (e : ending) : Z :=
  match e with
  | Returned => 0
  | Exit code => code
  | Uncaught => 1
  end.

End App.

(** * Properties *)

(** ** Strings *)

Section StringFacts.

Lemma append_nil_r (a : string) : a ++ "" = a.
Proof. induction a as [|c a IH]; simpl; [reflexivity | now rewrite IH]. Qed.

Lemma append_assoc (a b c : string) : (a ++ b) ++ c = a ++ (b ++ c).
Proof. induction a as [|x a IH]; simpl; [reflexivity | now rewrite IH]. Qed.

Lemma all_append (p : ascii -> bool) (a b : string) :
  Str.all p (a ++ b) = Str.all p a && Str.all p b.
Proof.
  induction a as [|x a IH]; simpl; [reflexivity |].
  rewrite IH. now rewrite andb_assoc.
Qed.

Lemma eq_ci_refl (c : ascii) : Chars.eq_ci c c = true.
Proof. unfold Chars.eq_ci. apply Ascii.eqb_refl. Qed.

Lemma startswith_ci_refl (t : string) : Str.startswith_ci t t = true.
Proof. induction t as [|c t IH]; simpl; [reflexivity |]. now rewrite eq_ci_refl. Qed.

Lemma startswith_ci_append (t v r : string) :
  Str.startswith_ci t v = true -> Str.startswith_ci t (v ++ r) = true.
Proof.
  revert v. induction t as [|a t IH]; intros v H; [reflexivity |].
  destruct v as [|b v]; simpl in *; [discriminate |].
  apply andb_true_iff in H as [H1 H2]. rewrite H1. simpl. now apply IH.
Qed.

Lemma contains_ci_split (t s : string) :
  Str.contains_ci t s = true ->
  exists u v, s = u ++ v /\ Str.startswith_ci t v = true.
Proof.
  induction s as [|c s IH]; simpl; intros H.
  - rewrite orb_false_r in H. exists "", "". now split.
  - apply orb_true_iff in H as [H | H].
    + exists "", (String c s). now split.
    + destruct (IH H) as (u & v & -> & Hv). exists (String c u), v. now split.
Qed.

Lemma contains_ci_found (t u v : string) :
  Str.startswith_ci t v = true -> Str.contains_ci t (u ++ v) = true.
Proof.
  intros H. induction u as [|c u IH]; simpl.
  - destruct v; simpl; rewrite H; reflexivity.
  - rewrite IH. apply orb_true_r.
Qed.

Lemma endswith_split (t s : string) :
  Str.endswith t s = true -> exists u, s = u ++ t.
Proof.
  induction s as [|c s IH]; simpl; intros H.
  - rewrite orb_false_r in H. apply String.eqb_eq in H. subst. now exists "".
  - apply orb_true_iff in H as [H | H].
    + apply String.eqb_eq in H. subst. now exists "".
    + destruct (IH H) as [u ->]. now exists (String c u).
Qed.

Lemma endswith_append (t u : string) : Str.endswith t (u ++ t) = true.
Proof.
  induction u as [|c u IH]; simpl.
  - destruct t; simpl; rewrite ?String.eqb_refl, ?Ascii.eqb_refl; reflexivity.
  - rewrite IH. apply orb_true_r.
Qed.

Lemma endswith_contains_ci (t s : string) :
  Str.endswith t s = true -> Str.contains_ci t s = true.
Proof.
  intros H. destruct (endswith_split _ _ H) as [u ->].
  apply contains_ci_found, startswith_ci_refl.
Qed.

End StringFacts.

(** ** The matcher *)

Section MatcherFacts.
Import Re.

Lemma lit_hit (t s : string) (h : hit) :
  In h (lit t s) ->
  groups h = [] /\ s = taken h ++ rest h /\ Str.startswith_ci t s = true.
Proof.
  revert s h. induction t as [|a t IH]; intros s h H; simpl in H.
  - destruct H as [<- | []]. now repeat split.
  - destruct s as [|b s]; [contradiction |].
    simpl. destruct (Chars.eq_ci a b); [| contradiction].
    apply in_map_iff in H as (h' & <- & H'). destruct (IH _ _ H') as (Hg & Hs & Hp).
    simpl. repeat split; auto. now rewrite <- Hs.
Qed.

Lemma lit_matches (t s : string) :
  Str.startswith_ci t s = true -> lit t s <> [].
Proof.
  revert s. induction t as [|a t IH]; intros s H; simpl.
  - discriminate.
  - destruct s as [|b s]; simpl in H; [discriminate |].
    apply andb_true_iff in H as [H1 H2]. rewrite H1.
    specialize (IH _ H2). destruct (lit t s); [contradiction | discriminate].
Qed.

Lemma star_g_hit (p : ascii -> bool) (s : string) (h : hit) :
  In h (star_g p s) ->
  groups h = [] /\ s = taken h ++ rest h /\ Str.all p (taken h) = true.
Proof.
  revert h. induction s as [|c s IH]; intros h H; simpl in H.
  - destruct H as [<- | []]. now repeat split.
  - destruct (p c) eqn:Hc.
    + apply in_app_or in H as [H | [<- | []]]; [| now repeat split].
      apply in_map_iff in H as (h' & <- & H'). destruct (IH _ H') as (Hg & Hs & Hp).
      simpl. rewrite Hc, Hp, <- Hs. now repeat split.
    + destruct H as [<- | []]. now repeat split.
Qed.

Lemma star_g_complete (p : ascii -> bool) (u w : string) :
  Str.all p u = true -> In (mkHit u w []) (star_g p (u ++ w)).
Proof.
  induction u as [|c u IH]; simpl; intros H.
  - destruct w as [|x w]; simpl; [now left |].
    destruct (p x); [apply in_or_app; right |]; now left.
  - apply andb_true_iff in H as [Hc Hu]. rewrite Hc.
    apply in_or_app. left. apply in_map_iff.
    exists (mkHit u w []). split; [reflexivity | now apply IH].
Qed.

Lemma plus_g_hit (p : ascii -> bool) (s : string) (h : hit) :
  In h (plus_g p s) ->
  groups h = [] /\ s = taken h ++ rest h /\ Str.all p (taken h) = true /\ taken h <> "".
Proof.
  destruct s as [|c s]; simpl; [contradiction |].
  destruct (p c) eqn:Hc; [| contradiction].
  intros H. apply in_map_iff in H as (h' & <- & H').
  destruct (star_g_hit _ _ _ H') as (Hg & Hs & Hp).
  simpl. rewrite Hc, Hp, <- Hs. repeat split; auto. discriminate.
Qed.

Lemma cat_hit (r1 r2 : regex) (prev : option ascii) (s : string) (h : hit) :
  In h (exec (Cat r1 r2) prev s) ->
  exists h1 h2,
    In h1 (exec r1 prev s) /\
    In h2 (exec r2 (Str.last (taken h1) prev) (rest h1)) /\
    h = glue h1 h2.
Proof.
  simpl. intros H. apply in_flat_map in H as (h1 & H1 & H).
  apply in_map_iff in H as (h2 & <- & H2). now exists h1, h2.
Qed.

Lemma search_from_hit (r : regex) (prev : option ascii) (s : string) (h : hit) :
  search_from r prev s = Some h ->
  exists prev' s', In h (exec r prev' s').
Proof.
  revert prev. induction s as [|c s IH]; intros prev H; simpl in H.
  - destruct (exec r prev "") as [|h0 l] eqn:E; [discriminate |].
    injection H as <-. exists prev, "". rewrite E. now left.
  - destruct (exec r prev (String c s)) as [|h0 l] eqn:E.
    + eapply IH, H.
    + injection H as <-. exists prev, (String c s). rewrite E. now left.
Qed.

End MatcherFacts.

(** ** The listing resolver *)

Section ListingFacts.
Import Re Listing.
Local Open Scope regex_scope.

Lemma cat_matches (r1 r2 : regex) (prev : option ascii) (s : string) (h1 : hit) :
  In h1 (exec r1 prev s) ->
  exec r2 (Str.last (taken h1) prev) (rest h1) <> [] ->
  exec (r1 >> r2) prev s <> [].
Proof.
  intros H1 H2. simpl.
  destruct (exec r2 (Str.last (taken h1) prev) (rest h1)) as [|h2 l] eqn:E; [contradiction |].
  intros Hnil.
  assert (Hin : In (glue h1 h2)
                  (flat_map (fun h => map (glue h) (exec r2 (Str.last (taken h) prev) (rest h)))
                            (exec r1 prev s))).
  { apply in_flat_map. exists h1. split; [assumption |]. rewrite E. now left. }
  rewrite Hnil in Hin. contradiction.
Qed.

Lemma not_ahead_hit (r : regex) (prev : option ascii) (s : string) (h : hit) :
  In h (exec (NotAhead r) prev s) -> h = nothing s /\ exec r prev s = [].
Proof.
  simpl. destruct (exec r prev s) as [|x l]; [| contradiction].
  intros [<- | []]. now split.
Qed.

(** The lookahead lets a position pass only if no [.mp4], in any letter
    case, occurs in the run of characters up to the next double quote. *)
Lemma no_mp4_ahead_passes (prev : option ascii) (t more : string) :
  exec (StarG not_quote >> Lit ".mp4") prev (t ++ more) = [] ->
  Str.all not_quote t = true ->
  Str.contains_ci ".mp4" t = false.
Proof.
  intros E Ht.
  destruct (Str.contains_ci ".mp4" t) eqn:C; [exfalso | reflexivity].
  destruct (contains_ci_split _ _ C) as (u & v & -> & Hv).
  rewrite all_append in Ht. apply andb_true_iff in Ht as [Hu _].
  revert E. apply cat_matches with (h1 := mkHit u (v ++ more) []).
  - rewrite append_assoc. now apply star_g_complete.
  - apply (lit_matches ".mp4" (v ++ more)). now apply startswith_ci_append.
Qed.

(** What every match of [link_re] captures as its first group. *)
Lemma link_re_target (prev : option ascii) (s : string) (link : hit) :
  In link (exec link_re prev s) ->
  let target := group 1 (groups link) in
  target <> "" /\ Str.all not_quote target = true /\
  Str.contains_ci ".mp4" target = false.
Proof.
  unfold link_re. intros H.
  apply cat_hit in H as (ha & x1 & Ha & H & ->).
  apply cat_hit in H as (hs & x2 & Hs & H & ->).
  apply cat_hit in H as (hh & x3 & Hh & H & ->).
  apply cat_hit in H as (hl & x4 & Hl & H & ->).
  apply cat_hit in H as (hg & x5 & Hg & _ & ->).
  apply lit_hit in Ha as (Ga & _ & _).
  apply star_g_hit in Hs as (Gs & _ & _).
  apply lit_hit in Hh as (Gh & _ & _).
  apply not_ahead_hit in Hl as [-> Hl].
  simpl in Hg. apply in_map_iff in Hg as (hp & <- & Hp).
  apply plus_g_hit in Hp as (_ & Hsplit & Hall & Hne).
  rewrite Hsplit in Hl. apply no_mp4_ahead_passes in Hl; [| assumption].
  simpl. rewrite Ga, Gs, Gh. simpl. auto.
Qed.



End ListingFacts.

Section MatcherPositions.
Import Re.

Lemma star_l_hit (p : ascii -> bool) (s : string) (h : hit) :
  In h (star_l p s) -> s = taken h ++ rest h.
Proof.
  revert h. induction s as [|c s IH]; intros h H; simpl in H.
  - destruct H as [<- | []]. reflexivity.
  - destruct H as [<- | H]; [reflexivity |].
    destruct (p c); [| contradiction].
    apply in_map_iff in H as (h' & <- & H'). simpl. now rewrite <- (IH _ H').
Qed.

(** A match consumes a prefix of the subject. *)
Lemma exec_split (r : regex) (prev : option ascii) (s : string) (h : hit) :
  In h (exec r prev s) -> s = taken h ++ rest h.
Proof.
  revert prev s h.
  induction r as [t | p | p | p | p | r IH | r1 IH1 r2 IH2 | n r IH | r IH | |];
    intros prev s h H.
  - now apply lit_hit in H.
  - simpl in H. destruct s as [|c s]; [contradiction |].
    destruct (p c); [| contradiction]. destruct H as [<- | []]. reflexivity.
  - now apply star_g_hit in H.
  - now apply star_l_hit in H.
  - now apply plus_g_hit in H.
  - simpl in H. apply in_app_or in H as [H | [<- | []]]; [eapply IH, H | reflexivity].
  - apply cat_hit in H as (h1 & h2 & H1 & H2 & ->).
    simpl. rewrite append_assoc, <- (IH2 _ _ _ H2). eapply IH1, H1.
  - simpl in H. apply in_map_iff in H as (h' & <- & H'). simpl. eapply IH, H'.
  - apply not_ahead_hit in H as [-> _]. reflexivity.
  - simpl in H. destruct (xorb _ _); [| contradiction]. destruct H as [<- | []]. reflexivity.
  - destruct s as [|c [|c' s]]; cbn [exec] in H; try contradiction.
    + destruct H as [<- | []]. reflexivity.
    + destruct (Chars.is_char "010" c); [| contradiction]. destruct H as [<- | []]. reflexivity.
Qed.

(** [search] reports a match at the leftmost position that has one: the
    subject is some text [pre], then the match, and the pattern matches at no
    position inside [pre]. *)
Lemma search_from_leftmost (r : regex) (prev : option ascii) (s : string) (h : hit) :
  search_from r prev s = Some h ->
  exists pre,
    s = pre ++ taken h ++ rest h /\
    List.hd_error (exec r (Str.last pre prev) (taken h ++ rest h)) = Some h /\
    forall pre1 c pre2,
      pre = pre1 ++ String c pre2 ->
      exec r (Str.last pre1 prev) (String c pre2 ++ taken h ++ rest h) = [].
Proof.
  revert prev. induction s as [|c s IH]; intros prev H; simpl in H.
  - destruct (exec r prev "") as [|h0 l] eqn:E; [discriminate |]. injection H as <-.
    assert (Hs : "" = taken h0 ++ rest h0) by (eapply exec_split; rewrite E; now left).
    exists "". simpl. rewrite <- Hs, E. repeat split.
    intros [|x pre1] c pre2 Hp; discriminate.
  - destruct (exec r prev (String c s)) as [|h0 l] eqn:E.
    + destruct (IH _ H) as (pre & Hs & Hhd & Hno).
      exists (String c pre). simpl. rewrite <- Hs. repeat split; [exact Hhd |].
      intros [|x pre1] c2 pre2 Hp; simpl in Hp; injection Hp as -> Hp.
      * subst pre. simpl. now rewrite <- Hs.
      * simpl. now apply Hno.
    + injection H as <-.
      assert (Hs : String c s = taken h0 ++ rest h0) by (eapply exec_split; rewrite E; now left).
      exists "". simpl. rewrite <- Hs, E. repeat split.
      intros [|x pre1] c2 pre2 Hp; discriminate.
Qed.

End MatcherPositions.


Section ResolverFacts.
Import Re Listing App.

Lemma length_append (a b : string) :
  String.length (a ++ b) = (String.length a + String.length b)%nat.
Proof. induction a as [|c a IH]; simpl; [reflexivity | now rewrite IH]. Qed.

Lemma append_cancel_r (a b t : string) : a ++ t = b ++ t -> a = b.
Proof.
  revert b. induction a as [|x a IH]; intros [|y b] H; simpl in H.
  - reflexivity.
  - apply (f_equal String.length) in H. simpl in H. rewrite length_append in H. lia.
  - apply (f_equal String.length) in H. simpl in H. rewrite length_append in H. lia.
  - injection H as -> H. f_equal. now apply IH.
Qed.

Lemma drop_last_append (p : string) (c : ascii) : Str.drop_last (p ++ String c "") = p.
Proof.
  induction p as [|x p IH]; [reflexivity |].
  change (String x p ++ String c "") with (String x (p ++ String c "")).
  destruct (p ++ String c "") as [|y r] eqn:E.
  - destruct p; discriminate.
  - cbn [Str.drop_last]. f_equal. exact IH.
Qed.

(** [p[:-1] if p.endswith('/') else p] takes away one slash, and only one. *)
Lemma without_slash_spec (p : string) :
  (Str.endswith "/" p = true /\ p = Path.without_slash p ++ "/") \/
  (Str.endswith "/" p = false /\ Path.without_slash p = p).
Proof.
  unfold Path.without_slash. destruct (Str.endswith "/" p) eqn:E; [left | right; auto].
  split; [reflexivity |]. destruct (endswith_split _ _ E) as [u ->].
  now rewrite drop_last_append.
Qed.

Lemma contains_ci_prefix (t a b : string) :
  Str.contains_ci t a = true -> Str.contains_ci t (a ++ b) = true.
Proof.
  intros H. destruct (contains_ci_split _ _ H) as (u & v & -> & Hv).
  rewrite append_assoc. apply contains_ci_found. now apply startswith_ci_append.
Qed.

Lemma without_slash_no_mp4 (p : string) :
  Str.contains_ci ".mp4" p = false ->
  Str.endswith ".mp4" (Path.without_slash p) = false.
Proof.
  intros H. destruct (Str.endswith ".mp4" (Path.without_slash p)) eqn:E; [| reflexivity].
  apply endswith_contains_ci in E.
  destruct (without_slash_spec p) as [[_ Hp] | [_ Hp]].
  - rewrite Hp in H. rewrite contains_ci_prefix in H by assumption. discriminate.
  - rewrite Hp in E. congruence.
Qed.

Lemma doubled_extension (base t : string) :
  Str.endswith (t ++ t) (base ++ t) = true -> Str.endswith t base = true.
Proof.
  intros H. destruct (endswith_split _ _ H) as [u Hu].
  rewrite <- append_assoc in Hu. apply append_cancel_r in Hu. subst base.
  apply endswith_append.
Qed.

Lemma row_step_from_anchor (latest : option entry) (m : hit) :
  (forall l, latest = Some l -> from_anchor l) ->
  forall e, row_step latest m = Some e -> from_anchor e.
Proof.
  intros Hl e. unfold row_step.
  destruct (search link_re (group 1 (groups m))) as [link|] eqn:S; [| apply Hl].
  destruct (td_vals (group 1 (groups m))) as [|t ts]; [apply Hl |].
  assert (Hnew : from_anchor (mkEntry (visible_name link) (group 1 (groups link)) t)).
  { exists (group 1 (groups m)), link. now split. }
  destruct latest as [l|].
  - destruct (modified l <? t); intros H; [injection H as <-; exact Hnew | now apply Hl].
  - intros H. injection H as <-. exact Hnew.
Qed.

Lemma parse_latest_from_anchor (html : string) (e : entry) :
  parse_latest_from_listing html = Some e -> from_anchor e.
Proof.
  unfold parse_latest_from_listing.
  assert (H0 : forall l, @None entry = Some l -> from_anchor l) by discriminate.
  revert H0. generalize (@None entry). generalize (finditer row_re html).
  intros ms. induction ms as [|m ms IH]; intros latest Hl; simpl.
  - apply Hl.
  - apply IH. intros l. now apply row_step_from_anchor.
Qed.

Lemma winning_href_has_no_mp4 (html : string) (e : entry) :
  parse_latest_from_listing html = Some e ->
  href e <> "" /\ Str.contains_ci ".mp4" (href e) = false.
Proof.
  intros H. apply parse_latest_from_anchor in H as (row & link & S & ->).
  apply search_from_hit in S as (prev & s & Hin).
  destruct (link_re_target _ _ _ Hin) as (Hne & _ & Hno). now split.
Qed.

End ResolverFacts.

(** ** Anchors *)

Section AnchorFacts.
Import Re Listing.
Local Open Scope regex_scope.

Lemma cat_in (r1 r2 : regex) (prev : option ascii) (s : string) (h1 h2 : hit) :
  In h1 (exec r1 prev s) ->
  In h2 (exec r2 (Str.last (taken h1) prev) (rest h1)) ->
  In (glue h1 h2) (exec (r1 >> r2) prev s).
Proof.
  intros H1 H2. simpl. apply in_flat_map. exists h1. split; [exact H1 |].
  now apply in_map.
Qed.

Lemma lit_complete (t w : string) : In (mkHit t w []) (lit t (t ++ w)).
Proof.
  induction t as [|a t IH]; simpl; [now left |].
  rewrite eq_ci_refl. apply in_map_iff. exists (mkHit t w []). now split.
Qed.

Lemma lit_length (t s : string) (h : hit) :
  In h (lit t s) -> String.length (taken h) = String.length t.
Proof.
  revert s h. induction t as [|a t IH]; intros s h H; simpl in H.
  - destruct H as [<- | []]. reflexivity.
  - destruct s as [|b s]; [contradiction |].
    destruct (Chars.eq_ci a b); [| contradiction].
    apply in_map_iff in H as (h' & <- & H'). simpl. f_equal. eapply IH, H'.
Qed.

Lemma star_l_complete (u w : string) : In (mkHit u w []) (star_l Chars.any (u ++ w)).
Proof.
  induction u as [|c u IH]; simpl.
  - destruct w; simpl; now left.
  - right. apply in_map_iff. exists (mkHit u w []). now split.
Qed.

(** Two ways of cutting one text, the first parts of equal length. *)
Lemma append_same_length (a b c d : string) :
  a ++ b = c ++ d -> String.length a = String.length c -> a = c /\ b = d.
Proof.
  revert c. induction a as [|x a IH]; intros [|y c] H L; simpl in *; try discriminate.
  - now split.
  - injection H as -> H. injection L as L. destruct (IH _ H L) as [-> ->]. now split.
Qed.

(** A run of characters other than [q] that begins a text in which [q]
    follows [t] lies within [t]. *)
Lemma run_within (q : ascii) (u v t tail : string) :
  u ++ v = t ++ String q tail ->
  Str.all (Chars.not_char q) u = true ->
  exists w, t = u ++ w /\ v = w ++ String q tail.
Proof.
  revert t. induction u as [|c u IH]; intros t H Hu; simpl in *.
  - exists t. now split.
  - apply andb_true_iff in Hu as [Hc Hu]. destruct t as [|d t]; simpl in H.
    + injection H as -> _. unfold Chars.not_char in Hc. now rewrite Ascii.eqb_refl in Hc.
    + injection H as -> H. destruct (IH _ H Hu) as (w & -> & ->). now exists w.
Qed.

(** A text that is cut where [q] stands, by two runs that avoid [q]. *)
Lemma runs_agree (q : ascii) (u t v tail : string) :
  u ++ String q v = t ++ String q tail ->
  Str.all (Chars.not_char q) u = true ->
  Str.all (Chars.not_char q) t = true ->
  u = t /\ v = tail.
Proof.
  intros H Hu Ht. destruct (run_within q u (String q v) t tail H Hu) as (w & -> & Hw).
  destruct w as [|c w]; simpl in Hw.
  - injection Hw as ->. now rewrite append_nil_r.
  - injection Hw as <- _. rewrite all_append in Ht. simpl in Ht.
    unfold Chars.not_char in Ht at 2. rewrite Ascii.eqb_refl in Ht. simpl in Ht.
    rewrite andb_false_r in Ht. discriminate.
Qed.

(** A literal none of whose characters is [q], found at the head of a text
    in which [q] stands after [w], lies within [w]. *)
Lemma startswith_ci_within (t w : string) (q : ascii) (tail : string) :
  Str.all (fun a => negb (Chars.eq_ci a q)) t = true ->
  Str.startswith_ci t (w ++ String q tail) = true ->
  Str.startswith_ci t w = true.
Proof.
  revert w. induction t as [|a t IH]; intros w Ht H; [reflexivity |].
  simpl in Ht. apply andb_true_iff in Ht as [Ha Ht].
  destruct w as [|b w]; simpl in H.
  - apply andb_true_iff in H as [H _]. rewrite H in Ha. discriminate.
  - apply andb_true_iff in H as [H1 H2]. simpl. rewrite H1. simpl. now apply IH.
Qed.

Lemma count_ci_later (t u v : string) :
  (Str.count_ci t v <= Str.count_ci t (u ++ v))%nat.
Proof.
  induction u as [|c u IH]; simpl; [reflexivity |]. lia.
Qed.

Lemma count_ci_found (t v : string) :
  Str.startswith_ci t v = true -> (1 <= Str.count_ci t v)%nat.
Proof. intros H. destruct v; simpl; rewrite H; lia. Qed.

(** Where a text occurs once, there is one place at which it begins. *)
Lemma count_ci_once (t u1 v1 u2 v2 : string) :
  u1 ++ v1 = u2 ++ v2 ->
  Str.startswith_ci t v1 = true -> Str.startswith_ci t v2 = true ->
  Str.count_ci t (u1 ++ v1) = 1%nat ->
  u1 = u2.
Proof.
  revert u2. induction u1 as [|c u1 IH]; intros [|d u2] H S1 S2 C; simpl in H.
  - reflexivity.
  - exfalso. subst v1. simpl in C, S1. rewrite S1 in C.
    pose proof (count_ci_later t u2 v2). pose proof (count_ci_found t v2 S2). lia.
  - exfalso. subst v2. simpl in C. change (String c (u1 ++ v1)) with (String c u1 ++ v1) in S2.
    simpl in S2. rewrite S2 in C.
    pose proof (count_ci_later t u1 v1). pose proof (count_ci_found t v1 S1). lia.
  - injection H as -> H. f_equal. apply (IH u2 H S1 S2).
    simpl in C. pose proof (count_ci_later t u1 v1). pose proof (count_ci_found t v1 S1).
    destruct (Str.startswith_ci t (String d (u1 ++ v1))); lia.
Qed.

Lemma eq_ci_quote (c : ascii) : Chars.eq_ci dquote c = true -> c = dquote.
Proof.
  destruct c as [[] [] [] [] [] [] [] []]; vm_compute; intros H;
    try discriminate; reflexivity.
Qed.


Lemma plus_g_complete (p : ascii -> bool) (u w : string) :
  Str.all p u = true -> u <> "" -> In (mkHit u w []) (plus_g p (u ++ w)).
Proof.
  destruct u as [|c u]; [congruence |]. intros H _. simpl in H.
  apply andb_true_iff in H as [Hc Hu]. simpl. rewrite Hc.
  apply in_map_iff. exists (mkHit u w []). split; [reflexivity |].
  now apply star_g_complete.
Qed.

Lemma no_hits (A : Type) (l : list A) : (forall x, ~ In x l) -> l = [].
Proof. destruct l as [|x l]; [reflexivity |]. intros H. destruct (H x). now left. Qed.

(** The lookahead lets a reference pass that holds no [.mp4]. *)
Lemma no_mp4_ahead_accepts (prev : option ascii) (t tail : string) :
  Str.all not_quote t = true ->
  Str.contains_ci ".mp4" t = false ->
  exec no_mp4_ahead prev (t ++ quote_mark ++ tail) = [nothing (t ++ quote_mark ++ tail)].
Proof.
  change (quote_mark ++ tail) with (String dquote tail).
  intros Ht Hno. unfold no_mp4_ahead. cbn [exec].
  change (flat_map _ _) with (exec (StarG not_quote >> Lit ".mp4") prev (t ++ String dquote tail)).
  rewrite (no_hits _ (exec (StarG not_quote >> Lit ".mp4") prev (t ++ String dquote tail)));
    [reflexivity |].
  intros h H. apply cat_hit in H as (h1 & h2 & H1 & H2 & _).
  apply star_g_hit in H1 as (_ & Hs & Hu). apply lit_hit in H2 as (_ & _ & Hv).
  symmetry in Hs. destruct (run_within dquote _ _ _ _ Hs Hu) as (w & Ht' & Hw).
  rewrite Hw in Hv. apply (startswith_ci_within ".mp4" w dquote tail eq_refl) in Hv.
  rewrite Ht', (contains_ci_found ".mp4" (taken h1) w Hv) in Hno. discriminate.
Qed.

Lemma anchor_text (before target after body post : string) :
  anchor before target after body ++ post =
  "<a" ++ before ++ ("href=" ++ quote_mark) ++ target ++ quote_mark ++ after ++ ">" ++
  body ++ "</a>" ++ post.
Proof. unfold anchor, attributes. now rewrite !append_assoc. Qed.

(** The pattern matches at an anchor whose reference holds no [.mp4], and
    one of its matches there captures that reference. *)
Lemma anchor_accepted (prev : option ascii) (before target after body post : string) :
  Str.all not_gt before = true -> Str.all not_gt after = true ->
  reference target = true ->
  Str.contains_ci ".mp4" target = false ->
  exists link,
    In link (exec link_re prev (anchor before target after body ++ post)) /\
    group 1 (groups link) = target.
Proof.
  intros Hb Ha Hr Hno. apply andb_true_iff in Hr as [Hne Hq].
  assert (Hne' : target <> "") by (intros ->; discriminate).
  rewrite anchor_text. unfold link_re.
  eexists. split.
  - apply cat_in; [apply (lit_complete "<a") |]. cbn [taken rest].
    apply cat_in; [apply (star_g_complete not_gt before), Hb |]. cbn [taken rest].
    apply cat_in; [apply (lit_complete ("href=" ++ quote_mark)) |]. cbn [taken rest].
    apply cat_in; [rewrite (no_mp4_ahead_accepts _ target _ Hq Hno); now left |].
    cbn [taken rest nothing].
    apply cat_in.
    { cbn [exec]. apply in_map. apply (plus_g_complete not_quote target _ Hq Hne'). }
    cbn [taken rest].
    apply cat_in; [apply (lit_complete quote_mark) |]. cbn [taken rest].
    apply cat_in; [apply (star_g_complete not_gt after), Ha |]. cbn [taken rest].
    apply cat_in; [apply (lit_complete ">") |]. cbn [taken rest].
    apply cat_in.
    { cbn [exec]. apply in_map. apply (star_l_complete body). }
    cbn [taken rest]. apply (lit_complete "</a>").
  - reflexivity.
Qed.


Lemma append_cancel_l (a b c : string) : a ++ b = a ++ c -> b = c.
Proof. induction a as [|x a IH]; simpl; intros H; [exact H |]. injection H as H. auto. Qed.

(** Every match of the pattern at an anchor whose opening tag holds one
    [href] captures the reference of that anchor. *)
Lemma anchor_hits (prev : option ascii) (before target after body post : string)
    (link : hit) :
  one_href before target after = true ->
  Str.all not_quote target = true ->
  In link (exec link_re prev (anchor before target after body ++ post)) ->
  group 1 (groups link) = target.
Proof.
  intros Hone Hq H. apply Nat.eqb_eq in Hone.
  set (href := "href=" ++ quote_mark) in *.
  set (tail := body ++ "</a>" ++ post).
  assert (Htext : anchor before target after body ++ post
                  = "<a" ++ attributes before target after ++ String ">" tail).
  { unfold anchor. now rewrite !append_assoc. }
  rewrite Htext in H. clear Htext. unfold link_re in H.
  apply cat_hit in H as (ha & x1 & Ha & H & ->).
  apply cat_hit in H as (hs & x2 & Hs & H & ->).
  apply cat_hit in H as (hh & x3 & Hh & H & ->).
  apply cat_hit in H as (hl & x4 & Hl & H & ->).
  apply cat_hit in H as (hg & x5 & Hg & H & ->).
  apply cat_hit in H as (hq & x6 & Hk & _ & _).
  (* the literal [<a] *)
  cbn [exec] in Ha. pose proof (lit_length _ _ _ Ha) as La.
  apply lit_hit in Ha as (Ga & Sa & _).
  destruct (append_same_length _ _ _ _ Sa (eq_sym La)) as [_ Ra]. rewrite <- Ra in Hs.
  (* the attributes before [href] *)
  cbn [exec] in Hs. apply star_g_hit in Hs as (Gs & Ss & Us).
  symmetry in Ss. destruct (run_within ">" _ _ _ _ Ss Us) as (w & Hw & Rs).
  (* the literal [href=] and the quote *)
  cbn [exec] in Hh. pose proof (lit_length _ _ _ Hh) as Lh.
  apply lit_hit in Hh as (Gh & Sh & Ph).
  rewrite Rs in Ph. apply (startswith_ci_within href w ">" tail eq_refl) in Ph.
  assert (Hbefore : taken hs = before).
  { apply (count_ci_once href (taken hs) w before
             (href ++ target ++ quote_mark ++ after)).
    - rewrite <- Hw. unfold attributes, href. now rewrite !append_assoc.
    - exact Ph.
    - apply startswith_ci_append, startswith_ci_refl.
    - now rewrite <- Hw. }
  assert (Hwhole : w = href ++ target ++ quote_mark ++ after).
  { apply (append_cancel_l before). rewrite <- Hbefore at 1. rewrite <- Hw.
    unfold attributes, href. now rewrite !append_assoc. }
  rewrite Hwhole, !append_assoc in Rs. rewrite Rs in Sh.
  destruct (append_same_length _ _ _ _ Sh (eq_sym Lh)) as [_ Rh].
  (* the lookahead and the captured reference *)
  apply not_ahead_hit in Hl as [-> _]. cbn [rest nothing taken] in Hg.
  cbn [exec] in Hg. apply in_map_iff in Hg as (hp & <- & Hp).
  apply plus_g_hit in Hp as (Gp & Sp & Up & _).
  cbn [rest taken] in Hk. cbn [exec] in Hk. apply lit_hit in Hk as (_ & _ & Pk).
  destruct (rest hp) as [|c r] eqn:Rp; [discriminate |].
  simpl in Pk. apply andb_true_iff in Pk as [Pk _]. apply eq_ci_quote in Pk. subst c.
  rewrite <- Rh in Sp.
  change (quote_mark ++ after ++ String ">" tail) with (String dquote (after ++ String ">" tail))
    in Sp.
  symmetry in Sp. destruct (runs_agree dquote _ _ _ _ Sp Up Hq) as [Ht _].
  cbn [glue groups]. rewrite Ga, Gs, Gh. cbn. exact Ht.
Qed.

(** The pattern matches at no anchor with one [href] whose reference holds
    [.mp4]. *)
Lemma anchor_refused (prev : option ascii) (before target after body post : string) :
  one_href before target after = true ->
  Str.all not_quote target = true ->
  Str.contains_ci ".mp4" target = true ->
  exec link_re prev (anchor before target after body ++ post) = [].
Proof.
  intros Hone Hq Hmp4. apply no_hits. intros link H.
  pose proof (anchor_hits _ _ _ _ _ _ _ Hone Hq H) as Ht.
  destruct (link_re_target _ _ _ H) as (_ & _ & Hno). cbv zeta in Hno.
  rewrite Ht in Hno. congruence.
Qed.

Lemma search_from_finds (r : regex) (s : string) :
  (forall prev, exec r prev s <> []) ->
  forall pre prev, search_from r prev (pre ++ s) <> None.
Proof.
  intros Hs. induction pre as [|c pre IH]; intros prev.
  - simpl. specialize (Hs prev). destruct s; simpl;
      destruct (exec r prev _); try congruence; discriminate.
  - simpl. destruct (exec r prev (String c (pre ++ s))); [apply IH | discriminate].
Qed.

(** Of two ways of cutting one text, the longer first part goes on into
    the second part of the other. *)
Lemma longer_prefix (a b c d : string) :
  a ++ b = c ++ d -> (String.length c < String.length a)%nat ->
  exists x r, a = c ++ String x r /\ d = String x r ++ b.
Proof.
  revert c. induction a as [|x a IH]; intros c H L; [simpl in L; lia |].
  destruct c as [|y c]; simpl in *.
  - exists x, a. now split.
  - injection H as -> H. destruct (IH c H) as (z & r & -> & ->); [lia |].
    now exists z, r.
Qed.

End AnchorFacts.

(** C4, as the code has it.  Within a row the resolver takes the leftmost
    match of the anchor pattern: the first match the pattern has at a
    position of the row at which it has one, with none at any earlier
    position.  The reference that match captures is never empty, holds no
    double quote and holds no [.mp4], in any letter case, anywhere in it -
    so in particular it does not end in [.mp4].  No anchor is excluded for
    anything else in its reference: the pattern matches at every anchor
    whose reference is not empty and holds neither a double quote nor
    [.mp4], so a row with such an anchor has a match, which starts at that
    anchor or before it and, when it starts there and the tag holds one
    [href], captures the reference of that anchor.  And the match of a row
    never starts at an anchor with one [href] whose reference holds
    [.mp4]. *)
Theorem link_excluded_exactly_when_target_holds_mp4 (row : string) :
  (forall link,
      Listing.usable_anchor row = Some link ->
      let target := Re.group 1 (Re.groups link) in
      (exists pre,
          row = pre ++ Re.taken link ++ Re.rest link /\
          List.hd_error (Re.exec Listing.link_re (Str.last pre None)
                                 (Re.taken link ++ Re.rest link)) = Some link /\
          forall pre1 c pre2,
            pre = pre1 ++ String c pre2 ->
            Re.exec Listing.link_re (Str.last pre1 None)
                    (String c pre2 ++ Re.taken link ++ Re.rest link) = []) /\
      target <> "" /\
      Str.all Listing.not_quote target = true /\
      Str.contains_ci ".mp4" target = false /\
      Str.endswith ".mp4" target = false) /\
  (forall pre before target after body post,
      row = pre ++ Listing.anchor before target after body ++ post ->
      Str.all Listing.not_gt before = true ->
      Str.all Listing.not_gt after = true ->
      Listing.reference target = true ->
      Str.contains_ci ".mp4" target = false ->
      (forall prev,
          exists link,
            In link (Re.exec Listing.link_re prev
                             (Listing.anchor before target after body ++ post)) /\
            Re.group 1 (Re.groups link) = target) /\
      exists link found,
        Listing.usable_anchor row = Some link /\
        row = found ++ Re.taken link ++ Re.rest link /\
        (String.length found <= String.length pre)%nat /\
        (found = pre -> Listing.one_href before target after = true ->
         Re.group 1 (Re.groups link) = target)) /\
  (forall pre before target after body post,
      row = pre ++ Listing.anchor before target after body ++ post ->
      Listing.one_href before target after = true ->
      Str.all Listing.not_quote target = true ->
      Str.contains_ci ".mp4" target = true ->
      (forall prev,
          Re.exec Listing.link_re prev (Listing.anchor before target after body ++ post) = []) /\
      forall link found,
        Listing.usable_anchor row = Some link ->
        row = found ++ Re.taken link ++ Re.rest link ->
        found <> pre).
Proof.
  split; [| split].
  - intros link S. split.
    + destruct (search_from_leftmost _ _ _ _ S) as (pre & Hs & Hhd & Hno). now exists pre.
    + apply search_from_hit in S as (prev & s & Hin).
      destruct (link_re_target _ _ _ Hin) as (Hne & Hq & Hno).
      repeat split; auto.
      destruct (Str.endswith ".mp4" _) eqn:E; [| reflexivity].
      apply endswith_contains_ci in E. simpl in *. congruence.
  - intros pre before target after body post Hrow Hb Ha Hr Hno.
    pose proof (fun prev => anchor_accepted prev before target after body post Hb Ha Hr Hno)
      as Hacc.
    split; [exact Hacc |].
    assert (Hnonempty : forall prev,
               Re.exec Listing.link_re prev (Listing.anchor before target after body ++ post)
               <> []).
    { intros prev E. destruct (Hacc prev) as (link & Hin & _). rewrite E in Hin. contradiction. }
    destruct (Listing.usable_anchor row) as [link|] eqn:S.
    2:{ exfalso. unfold Listing.usable_anchor, Re.search in S. rewrite Hrow in S.
        now apply (search_from_finds Listing.link_re _ Hnonempty pre None). }
    destruct (search_from_leftmost _ _ _ _ S) as (found & Hs & Hhd & Hnone).
    exists link, found. split; [reflexivity |]. split; [exact Hs |]. split.
    + destruct (Nat.le_gt_cases (String.length found) (String.length pre)) as [L | L];
        [exact L | exfalso].
      rewrite Hrow in Hs. symmetry in Hs.
      destruct (longer_prefix _ _ _ _ Hs L) as (x & r & Hfound & Hanchor).
      apply (Hnonempty (Str.last pre None)). rewrite Hanchor. now apply Hnone.
    + intros -> Hone. rewrite Hrow in Hs. apply append_cancel_l in Hs.
      apply andb_true_iff in Hr as [_ Hq].
      apply (anchor_hits (Str.last pre None) before target after body post link Hone Hq).
      rewrite Hs. destruct (Re.exec _ _ _) as [|h l]; [discriminate |].
      injection Hhd as ->. now left.
  - intros pre before target after body post Hrow Hone Hq Hmp4.
    pose proof (fun prev => anchor_refused prev before target after body post Hone Hq Hmp4)
      as Hnone.
    split; [exact Hnone |].
    intros link found S Hfound ->.
    destruct (search_from_leftmost _ _ _ _ S) as (found & Hs & Hhd & _).
    assert (found = pre) as ->.
    { apply (append_cancel_r _ _ (Re.taken link ++ Re.rest link)). congruence. }
    rewrite Hrow in Hs. apply append_cancel_l in Hs.
    rewrite <- Hs, Hnone in Hhd. discriminate.
Qed.

Lemma link_excluded_exactly_when_target_holds_mp4_witness :
  let pre := Listing.q "<td><a href='/local/aic_tlp/B.mp4'>file</a> " in
  let row := pre ++ Listing.anchor " " "/local/aic_tlp/B/" "" "B/" ++ "</td>" in
  exists link found,
    Listing.usable_anchor row = Some link /\
    row = found ++ Re.taken link ++ Re.rest link /\
    (String.length found <= String.length pre)%nat /\
    Re.group 1 (Re.groups link) = "/local/aic_tlp/B/" /\
    Str.contains_ci ".mp4" (Re.group 1 (Re.groups link)) = false.
Proof.
  intros pre row.
  destruct (link_excluded_exactly_when_target_holds_mp4 row) as (Hsound & Hcomplete & _).
  destruct (Hcomplete pre " " "/local/aic_tlp/B/" "" "B/" "</td>")
    as (_ & link & found & S & Hrow & Hlen & Hsame); try reflexivity.
  exists link, found. split; [exact S |]. split; [exact Hrow |]. split; [exact Hlen |].
  destruct (Hsound link S) as (_ & _ & _ & Hno & _).
  split; [| exact Hno].
  vm_compute in S. injection S as <-. reflexivity.
Defined.

(** C4 as stated fails: a target that holds [.mp4] without ending in it is
    passed over, although the same anchor with another target is taken. *)
Lemma link_excluded_without_mp4_ending :
  Str.endswith ".mp4" "/clips/a.mp4.d/" = false /\
  Listing.usable_anchor (Listing.q "<a href='/clips/a.mp4.d/'>a</a>") = None /\
  option_map (fun link => Re.group 1 (Re.groups link))
    (Listing.usable_anchor (Listing.q "<a href='/clips/a_mp4.d/'>a</a>"))
  = Some "/clips/a_mp4.d/".
Proof. repeat split; vm_compute; reflexivity. Qed.



(** C6, as the code has it.  The extension is appended to the normalized
    reference whatever that reference ends with: nothing detects a reference
    that already ends in [.mp4].  When the winning reference starts with a
    slash the result still never ends in a doubled extension, because the
    anchor pattern captures no target that holds [.mp4]. *)
Theorem extension_is_always_appended
    (urljoin : string -> string -> string) (gmtime_ok : Z -> bool)
    (html host list_path : string) (verbose : bool) (e : Listing.entry) :
  Listing.parse_latest_from_listing html = Some e ->
  (verbose = true -> gmtime_ok (Listing.modified e) = true) ->
  let base := Path.without_slash (App.candidate_base urljoin list_path (Listing.href e)) in
  snd (App.find_latest_mp4_path urljoin gmtime_ok (App.Page html) host list_path verbose)
    = App.Resolved (base ++ ".mp4") /\
  (Str.startswith "/" (Listing.href e) = true ->
   Str.endswith ".mp4" base = false /\
   Str.endswith ".mp4.mp4" (base ++ ".mp4") = false).
Proof.
  intros H Hlog base. split.
  - unfold App.find_latest_mp4_path. rewrite H.
    destruct verbose; [rewrite Hlog by reflexivity |]; reflexivity.
  - intros Habs. subst base. unfold App.candidate_base. rewrite Habs.
    destruct (winning_href_has_no_mp4 _ _ H) as [_ Hno].
    pose proof (without_slash_no_mp4 _ Hno) as Hend. split; [exact Hend |].
    destruct (Str.endswith ".mp4.mp4" _) eqn:E; [| reflexivity].
    apply (doubled_extension _ ".mp4") in E. congruence.
Qed.

Lemma extension_is_always_appended_witness :
  let html := Listing.q "<tr><td name='7'><a href='/local/aic_tlp/FOO/'>FOO/</a></td></tr>" in
  Listing.parse_latest_from_listing html
    = Some (Listing.mkEntry "FOO/" "/local/aic_tlp/FOO/" 7) /\
  Str.endswith ".mp4.mp4" "/local/aic_tlp/FOO.mp4" = false.
Proof.
  split; [vm_compute; reflexivity |].
  apply (extension_is_always_appended Url.urljoin_paths Url.gmtime_ok_64
           (Listing.q "<tr><td name='7'><a href='/local/aic_tlp/FOO/'>FOO/</a></td></tr>")
           "printer" "/local/aic_tlp/" false
           (Listing.mkEntry "FOO/" "/local/aic_tlp/FOO/" 7)).
  - vm_compute. reflexivity.
  - discriminate.
  - reflexivity.
Defined.

(** C6 as stated fails: with the listing path [/x.mp4/] and a row whose
    anchor points at [.], the normalized reference is [/x.mp4], which ends
    with the extension, and the extension is appended once more. *)
Lemma extension_doubled_for_relative_reference :
  let html := Listing.q "<tr><td name='1'><a href='.'>x</a></td></tr>" in
  option_map Listing.href (Listing.parse_latest_from_listing html) = Some "." /\
  Path.without_slash (App.candidate_base Url.urljoin_paths "/x.mp4/" ".") = "/x.mp4" /\
  Str.endswith ".mp4" "/x.mp4" = true /\
  App.find_latest_mp4_path Url.urljoin_paths Url.gmtime_ok_64 (App.Page html)
    "printer" "/x.mp4/" false
  = ([], App.Resolved "/x.mp4.mp4").
Proof. repeat split; vm_compute; reflexivity. Qed.

(** ** The push watcher *)

Section PushFacts.
Import Json Push.
Local Open Scope list_scope.

(** [(v or {}).get(k)] either raises or reads the field. *)
Lemma get_or_dict (v : value) (k : string) :
  get (or_dict v) k = None \/ get (or_dict v) k = Some (field v k).
Proof.
  unfold or_dict. destruct v as [| b | z | x | | s | items | items]; simpl;
    try (now right); try (now left).
  - destruct b; [now left | now right].
  - destruct (z =? 0); [now right | now left].
  - destruct (Qeq_bool x 0); [now right | now left].
  - destruct s; [now right | now left].
  - destruct items; [now right | now left].
  - destruct items; now right.
Qed.

Lemma first_or_none_carried (u got : value) :
  first_or_none (or_list u) = Some got ->
  (match u with
   | Arr (x :: _) => Some x
   | Str (String c _) => Some (Str (String c ""))
   | _ => None
   end = Some got) \/ got = Null.
Proof.
  unfold or_list, first_or_none.
  destruct u as [| b | z | x | | s | items | items]; simpl; intros H;
    try (injection H as <-; now right); try discriminate.
  - destruct b; simpl in H; [discriminate | injection H as <-; now right].
  - destruct (z =? 0) eqn:Z0; simpl in H; [injection H as <-; now right |].
    rewrite Z0 in H. discriminate.
  - destruct (Qeq_bool x 0) eqn:Q0; simpl in H; [injection H as <-; now right |].
    rewrite Q0 in H. discriminate.
  - destruct s; simpl in H; [injection H as <-; now right | now left].
  - destruct items; simpl in H; [injection H as <-; now right | now left].
  - destruct items; simpl in H; [injection H as <-; now right | discriminate].
Qed.

(** The watcher confirms only on a message that the specification reads as
    a confirmation whose first path is the target. *)
Lemma confirmed_only_for_target (verbose : bool) (target : string) (m : inbound) :
  snd (on_message verbose target m) = Confirmed ->
  exists data, m = Doc data /\ carried_first data = Some (Str target).
Proof.
  destruct m as [| data]; simpl; [discriminate |]. intros H. exists data. split; [reflexivity |].
  unfold carried_first, is_confirmation.
  destruct (get_or_dict data "Data") as [E | E]; rewrite E in H; [discriminate |].
  set (d0 := field data "Data") in *.
  destruct (get_or_dict d0 "Cmd") as [E1 | E1]; rewrite E1 in H; [discriminate |].
  destruct (eq_int (field d0 "Cmd") 323) eqn:Cmd; [| discriminate].
  destruct (get_or_dict d0 "Data") as [E2 | E2]; rewrite E2 in H; [discriminate |].
  set (dd := field d0 "Data") in *.
  destruct (get_or_dict dd "Url") as [E3 | E3]; rewrite E3 in H; [discriminate |].
  destruct (first_or_none (or_list (field dd "Url"))) as [got|] eqn:F; [| discriminate].
  destruct (eq_str got target) eqn:Eq; [| discriminate].
  assert (got = Str target) as ->.
  { destruct got; simpl in Eq; try discriminate. apply String.eqb_eq in Eq. now subst. }
  apply first_or_none_carried in F as [F | F]; [exact F | discriminate].
Qed.

Lemma get_or_dict_field (v : value) (k : string) :
  field v k <> Null -> get (or_dict v) k = Some (field v k).
Proof.
  unfold or_dict. destruct v as [| b | z | x | | s | items | items]; simpl;
    try (intros H; now contradiction H).
  destruct items; [intros H; now contradiction H | reflexivity].
Qed.

Lemma field_of_null (k : string) : field Null k = Null.
Proof. reflexivity. Qed.

(** A confirmation for another path: logged in verbose mode, then the loop
    goes on. *)
Lemma on_message_other_path (verbose : bool) (target : string) (data got : value) :
  carried_first data = Some got ->
  eq_str got target = false ->
  on_message verbose target (Doc data) =
    (when verbose [Stdout (L323For got)] ++
     when (verbose && truthy got) [Stderr (L323Different got)], Continue).
Proof.
  unfold carried_first, is_confirmation. intros C Hne.
  set (d0 := field data "Data") in *.
  set (dd := field d0 "Data") in *.
  set (u := field dd "Url") in *.
  destruct (eq_int (field d0 "Cmd") 323) eqn:Cmd; [| discriminate].
  assert (Hu : u <> Null) by (intros E; rewrite E in C; discriminate).
  assert (Hdd : dd <> Null) by (intros E; apply Hu; unfold u; now rewrite E).
  assert (Hcmd : field d0 "Cmd" <> Null) by (intros E; rewrite E in Cmd; discriminate).
  assert (Hd0 : d0 <> Null) by (intros E; apply Hdd; unfold dd; now rewrite E).
  unfold on_message. rewrite (get_or_dict_field data "Data" Hd0). fold d0. cbv zeta.
  rewrite (get_or_dict_field d0 "Cmd" Hcmd), Cmd.
  rewrite (get_or_dict_field d0 "Data" Hdd). fold dd.
  rewrite (get_or_dict_field dd "Url" Hu). fold u.
  assert (F : first_or_none (or_list u) = Some got).
  { destruct u as [| b | z | x | | s | items | items]; try discriminate.
    - destruct s; [discriminate | exact C].
    - destruct items; [discriminate | exact C]. }
  rewrite F, Hne. simpl. now rewrite andb_true_r.
Qed.

Lemma on_message_quiet (verbose : bool) (target : string) (m : inbound) :
  forallb quiet (fst (on_message verbose target m)) = true.
Proof.
  destruct m as [| data]; [reflexivity |]. unfold on_message.
  destruct (get (or_dict data) "Data") as [d0|]; [| reflexivity]. cbv zeta.
  destruct (get (or_dict d0) "Cmd") as [cmd|]; [| reflexivity].
  destruct (eq_int cmd 323); [| reflexivity].
  destruct (get (or_dict d0) "Data") as [dd|]; [| reflexivity].
  destruct (get (or_dict dd) "Url") as [u|]; [| reflexivity].
  destruct (first_or_none (or_list u)) as [got|]; [| reflexivity].
  destruct (eq_str got target), verbose, (truthy got); reflexivity.
Qed.

(** A message on which the watcher raises prints nothing first. *)
Lemma on_message_crash_silent (verbose : bool) (target : string) (m : inbound) :
  snd (on_message verbose target m) = Crashed -> fst (on_message verbose target m) = [].
Proof.
  destruct m as [| data]; [discriminate |]. unfold on_message.
  destruct (get (or_dict data) "Data") as [d0|]; [| reflexivity]. cbv zeta.
  destruct (get (or_dict d0) "Cmd") as [cmd|]; [| reflexivity].
  destruct (eq_int cmd 323); [| reflexivity].
  destruct (get (or_dict d0) "Data") as [dd|]; [| reflexivity].
  destruct (get (or_dict dd) "Url") as [u|]; [| reflexivity].
  destruct (first_or_none (or_list u)) as [got|]; [| reflexivity].
  destruct (eq_str got target); discriminate.
Qed.

End PushFacts.

(** ** The watch *)

Section WatchFacts.
Import Json Push Watch.
Local Open Scope list_scope.
Local Arguments Z.mul : simpl never.

Lemma on_message_silent (target : string) (m : inbound) :
  fst (on_message false target m) = [].
Proof.
  destruct m as [| data]; [reflexivity |]. unfold on_message.
  destruct (get (or_dict data) "Data") as [d0|]; [| reflexivity]. cbv zeta.
  destruct (get (or_dict d0) "Cmd") as [cmd|]; [| reflexivity].
  destruct (eq_int cmd 323); [| reflexivity].
  destruct (get (or_dict d0) "Data") as [dd|]; [| reflexivity].
  destruct (get (or_dict dd) "Url") as [u|]; [| reflexivity].
  destruct (first_or_none (or_list u)) as [got|]; [| reflexivity].
  destruct (eq_str got target); reflexivity.
Qed.

Lemma turn_on_other_message (verbose : bool) (target : string) (st : state) (m : inbound) :
  tws st = Running -> ws_ready st = false ->
  snd (on_message verbose target m) = Continue ->
  ws_waiter_turn verbose target st (RecvMsg m) =
    mkState false (http_ready st) Running (thttp st) (ka st) (delay st)
            (shown st ++ fst (on_message verbose target m)).
Proof.
  intros Ht Hr Hv. unfold ws_waiter_turn. rewrite Ht, Hr.
  destruct (on_message verbose target m) as [out v]. simpl in *. now subst v.
Qed.

Lemma hear_others (verbose : bool) (target : string) (msgs : list inbound) (st : state) :
  tws st = Running -> ws_ready st = false ->
  Forall (fun m => snd (on_message verbose target m) = Continue) msgs ->
  let st' := hear verbose target st msgs in
  ws_ready st' = false /\ tws st' = Running /\
  http_ready st' = http_ready st /\ thttp st' = thttp st /\
  shown st' = shown st ++ flat_map (fun m => fst (on_message verbose target m)) msgs.
Proof.
  revert st. induction msgs as [|m msgs IH]; intros st Ht Hr Hall; simpl.
  - rewrite app_nil_r. auto.
  - inversion Hall as [|? ? Hm Hrest]; subst.
    unfold hear in *. simpl.
    rewrite (turn_on_other_message _ _ _ _ Ht Hr Hm).
    destruct (IH (mkState false (http_ready st) Running (thttp st) (ka st) (delay st)
                          (shown st ++ fst (on_message verbose target m))))
      as (H1 & H2 & H3 & H4 & H5); auto.
    simpl in *. rewrite H5, <- app_assoc. auto.
Qed.

Lemma step_keeps_flags_down (verbose : bool) (target : string) (max_wait : Z)
    (st : state) (now : Z) (ev : event) :
  confirms verbose target ev = false ->
  ws_ready st = false -> http_ready st = false ->
  ws_ready (step verbose target max_wait st now ev) = false /\
  http_ready (step verbose target max_wait st now ev) = false.
Proof.
  intros Hc Hw Hh. destruct ev as [r | found | sent]; simpl in *.
  - unfold ws_waiter_turn. destruct (tws st); auto. rewrite Hw.
    destruct r as [| | m]; simpl; auto.
    destruct (on_message verbose target m) as [out v]. simpl in Hc.
    destruct v; simpl; auto; discriminate.
  - subst found. unfold http_waiter_turn. destruct (thttp st); auto.
    destruct ((now <? 1000 * max_wait) && negb (http_ready st)); simpl; auto.
  - unfold keepalive_turn. destruct (ka st); auto. destruct sent; simpl; auto.
Qed.

Lemma wait_keeps_flags_down (verbose : bool) (target : string) (max_wait : Z)
    (trace : list (Z * event)) (st : state) :
  forallb (fun te => negb (confirms verbose target (snd te))) trace = true ->
  ws_ready st = false -> http_ready st = false ->
  ws_ready (fst (wait verbose target max_wait st trace)) = false /\
  http_ready (fst (wait verbose target max_wait st trace)) = false.
Proof.
  revert st. induction trace as [|[now ev] trace IH]; intros st Hall Hw Hh; simpl; auto.
  simpl in Hall. apply andb_true_iff in Hall as [Hev Hall].
  apply negb_true_iff in Hev.
  destruct (1000 * max_wait <=? now); simpl; auto.
  destruct (step_keeps_flags_down verbose target max_wait st now ev Hev Hw Hh) as [Hw' Hh'].
  destruct (done (tws _) || done (thttp _)); simpl; [auto |].
  now apply IH.
Qed.

Lemma step_keeps_quiet (verbose : bool) (target : string) (max_wait : Z)
    (st : state) (now : Z) (ev : event) :
  forallb quiet (shown st) = true ->
  forallb quiet (shown (step verbose target max_wait st now ev)) = true.
Proof.
  intros Hq. destruct ev as [r | found | sent]; simpl.
  - unfold ws_waiter_turn. destruct (tws st); auto. destruct (ws_ready st); auto.
    destruct r as [| | m]; simpl; auto.
    + rewrite forallb_app, Hq. now destruct verbose.
    + pose proof (on_message_quiet verbose target m) as Hm.
      destruct (on_message verbose target m) as [out v]. simpl in Hm.
      destruct v; simpl; now rewrite forallb_app, Hq, Hm.
  - unfold http_waiter_turn. destruct (thttp st); auto.
    destruct ((now <? 1000 * max_wait) && negb (http_ready st)); auto.
    destruct found; auto.
  - unfold keepalive_turn. destruct (ka st); auto. destruct sent; simpl; auto.
    now rewrite forallb_app, Hq.
Qed.

Lemma wait_keeps_quiet (verbose : bool) (target : string) (max_wait : Z)
    (trace : list (Z * event)) (st : state) :
  forallb quiet (shown st) = true ->
  forallb quiet (shown (fst (wait verbose target max_wait st trace))) = true.
Proof.
  revert st. induction trace as [|[now ev] trace IH]; intros st Hq; simpl; auto.
  destruct (1000 * max_wait <=? now); simpl; auto.
  pose proof (step_keeps_quiet verbose target max_wait st now ev Hq) as Hq'.
  destruct (done (tws _) || done (thttp _)); simpl; [auto |].
  now apply IH.
Qed.

(** A failed receive ends the watch at once: the push watcher leaves its
    loop, and [asyncio.wait] returns because one of its two tasks is done. *)
Lemma recv_failure_ends_wait (verbose : bool) (target : string) (max_wait : Z)
    (st : state) (now : Z) (later : list (Z * event)) :
  tws st = Running -> ws_ready st = false -> now < 1000 * max_wait ->
  wait verbose target max_wait st ((now, Recv RecvFailed) :: later) =
    (mkState false (http_ready st) Finished (thttp st) (ka st) (delay st)
             (shown st ++ when verbose [Stderr LRecvError]), now).
Proof.
  intros Ht Hr Hnow. simpl.
  destruct (1000 * max_wait <=? now) eqn:E; [apply Z.leb_le in E; lia |].
  unfold ws_waiter_turn. rewrite Ht, Hr. reflexivity.
Qed.

End WatchFacts.

(** C8.  For every run in which no push message qualifies and no existence
    probe succeeds, the outcome of the watch is TimedOut, the run ends with
    the timed-out error as its last output and exit status 1, and nothing of
    the downloader happens: no directory is made, no URL is opened and no
    file is written. *)
Theorem timed_out_without_confirmation
    (w : App.world) (host target : string) (check : bool) (max_wait : Z)
    (verbose : bool) (download_dir : string) (url_only : bool) :
  forallb (fun te => negb (Watch.confirms verbose target (snd te))) (App.trace w) = true ->
  let r := App.run w host target check max_wait verbose download_dir url_only in
  Watch.outcome (App.final r) = Watch.TimedOut /\
  App.ended r = Exit 1 /\
  (exists before, App.effects r = (before ++ [Stderr (LTimedOut max_wait target)])%list) /\
  forallb quiet (App.effects r) = true.
Proof.
  intros Hall r. subst r. unfold App.run.
  destruct (wait_keeps_flags_down verbose target max_wait (App.trace w) Watch.initial
              Hall eq_refl eq_refl) as [Hw Hh].
  pose proof (wait_keeps_quiet verbose target max_wait (App.trace w) Watch.initial eq_refl)
    as Hq.
  destruct (Watch.wait verbose target max_wait Watch.initial (App.trace w)) as [st0 at_ms].
  simpl in Hw, Hh, Hq. cbv zeta. unfold Watch.cancel_watchers. simpl.
  rewrite Hw, Hh. simpl. unfold Watch.outcome. simpl. rewrite ?Hw, ?Hh.
  repeat split.
  - eexists (_ :: _ :: _)%list. simpl. reflexivity.
  - rewrite forallb_app, Hq. reflexivity.
Qed.

Lemma timed_out_without_confirmation_witness :
  let w := App.mkWorld "id" 0
             [(0, Watch.Probe false); (1500, Watch.Probe false);
              (3000, Watch.Recv (Push.RecvMsg Push.NotJson));
              (3750, Watch.Probe false)]
             false (fun _ => Download.Fetched) in
  let r := App.run w "printer" "/local/aic_tlp/A.mp4" false 5 false "out" false in
  Watch.outcome (App.final r) = Watch.TimedOut /\
  App.ended r = Exit 1 /\
  App.waited_ms r = 5000 /\
  forallb quiet (App.effects r) = true.
Proof.
  intros w r.
  destruct (timed_out_without_confirmation w "printer" "/local/aic_tlp/A.mp4"
              false 5 false "out" false) as (H1 & H2 & _ & H4).
  - vm_compute. reflexivity.
  - split; [exact H1 | split; [exact H2 | split; [vm_compute; reflexivity | exact H4]]].
Defined.

(** C10.  For every run in url-only mode whose watch ends confirmed, the
    run prints the download URL as its last output and returns; it makes no
    directory, opens no URL for download and writes no file. *)
Theorem url_only_leaves_disk_alone
    (w : App.world) (host target : string) (check : bool) (max_wait : Z)
    (verbose : bool) (download_dir : string) :
  Watch.outcome (fst (Watch.wait verbose target max_wait Watch.initial (App.trace w)))
    <> Watch.TimedOut ->
  let r := App.run w host target check max_wait verbose download_dir true in
  App.ended r = Returned /\
  (exists before,
     App.effects r = (before ++ [Stdout (LDownloadUrl (App.http_url_of host target))])%list) /\
  forallb quiet (App.effects r) = true.
Proof.
  intros Hok r. subst r. unfold App.run.
  pose proof (wait_keeps_quiet verbose target max_wait (App.trace w) Watch.initial eq_refl)
    as Hq.
  destruct (Watch.wait verbose target max_wait Watch.initial (App.trace w)) as [st0 at_ms].
  simpl in Hok, Hq. cbv zeta. unfold Watch.cancel_watchers. simpl.
  assert (Hflag : Watch.ws_ready st0 || Watch.http_ready st0 = true).
  { unfold Watch.outcome in Hok.
    destruct (Watch.ws_ready st0), (Watch.http_ready st0); auto. }
  rewrite Hflag. simpl.
  destruct check, (Watch.http_ready st0), (App.post_probe w); simpl;
    (split; [reflexivity |]);
    (split; [| rewrite forallb_app, Hq; reflexivity]);
    lazymatch goal with
    | |- exists _, ?a :: ?b :: (?s ++ [?c; ?x])%list = _ =>
        exists (a :: b :: s ++ [c])%list; simpl; rewrite <- app_assoc; reflexivity
    | |- exists _, ?a :: ?b :: (?s ++ [?c; ?d; ?x])%list = _ =>
        exists (a :: b :: s ++ [c; d])%list; simpl; rewrite <- app_assoc; reflexivity
    end.
Qed.

Lemma url_only_leaves_disk_alone_witness :
  let w := App.mkWorld "id" 0
             [(0, Watch.Probe false);
              (900, Watch.Recv (Push.RecvMsg
                       (Push.Doc (Push.make_export_cmd "/local/aic_tlp/A.mp4" "x" 1))))]
             true (fun _ => Download.Fetched) in
  let r := App.run w "printer" "/local/aic_tlp/A.mp4" true 180 false "out" true in
  App.ended r = Returned /\
  App.effects r =
    [ SentExport (Push.make_export_cmd "/local/aic_tlp/A.mp4" "id" 0);
      Stdout (LExportRequested "/local/aic_tlp/A.mp4");
      Stdout (LReady "http://printer/local/aic_tlp/A.mp4");
      Stdout (LDownloadUrl "http://printer/local/aic_tlp/A.mp4") ] /\
  forallb quiet (App.effects r) = true.
Proof.
  intros w r.
  destruct (url_only_leaves_disk_alone w "printer" "/local/aic_tlp/A.mp4"
              true 180 false "out") as (H1 & _ & H3).
  - vm_compute. discriminate.
  - split; [exact H1 | split; [vm_compute; reflexivity | exact H3]].
Defined.

Section RaceFacts.
Import Json Push Watch.
Local Open Scope list_scope.
Local Arguments Z.mul : simpl never.

Lemma idle_step (verbose : bool) (target : string) (max_wait : Z)
    (st : state) (now : Z) (ev : event) :
  idle verbose target ev = true -> now < 1000 * max_wait -> watching st ->
  watching (step verbose target max_wait st now ev).
Proof.
  intros Hi Hnow (Ht & Hp & Hw & Hh). unfold watching.
  destruct ev as [r | found | sent]; simpl in *.
  - unfold ws_waiter_turn. rewrite Ht, Hw.
    destruct r as [| | m]; simpl; auto; [discriminate |].
    destruct (on_message verbose target m) as [out v]. simpl in Hi.
    destruct v; try discriminate. simpl. auto.
  - unfold http_waiter_turn. rewrite Hp, Hh.
    apply Z.ltb_lt in Hnow. rewrite Hnow. destruct found; [discriminate |]. simpl. auto.
  - unfold keepalive_turn. destruct (ka st); auto. destruct sent; simpl; auto.
Qed.

(** Through an uneventful stretch the watch just goes on. *)
Lemma wait_through (verbose : bool) (target : string) (max_wait : Z)
    (stretch rest : list (Z * event)) (st : state) :
  uneventful verbose target max_wait stretch = true -> watching st ->
  exists st',
    watching st' /\
    wait verbose target max_wait st (stretch ++ rest) = wait verbose target max_wait st' rest.
Proof.
  revert st. induction stretch as [|[now ev] stretch IH]; intros st Hu Hst.
  - exists st. now split.
  - simpl in Hu. apply andb_true_iff in Hu as [Hev Hu].
    apply andb_true_iff in Hev as [Hi Hnow]. apply Z.ltb_lt in Hnow.
    pose proof (idle_step verbose target max_wait st now ev Hi Hnow Hst) as Hst'.
    destruct (IH _ Hu Hst') as (st2 & H2 & E). exists st2. split; [exact H2 |].
    simpl. destruct (1000 * max_wait <=? now) eqn:L; [apply Z.leb_le in L; lia |].
    destruct Hst' as (Ht & Hp & _). rewrite Ht, Hp. simpl. exact E.
Qed.

(** With nothing but idle events the call returns at the timeout, no sooner. *)
Lemma uneventful_wait_lasts (verbose : bool) (target : string) (max_wait : Z)
    (trace : list (Z * event)) :
  uneventful verbose target max_wait trace = true ->
  snd (wait verbose target max_wait initial trace) = 1000 * max_wait /\
  outcome (fst (wait verbose target max_wait initial trace)) = TimedOut.
Proof.
  intros Hu.
  destruct (wait_through verbose target max_wait trace [] initial Hu) as (st & Hst & E).
  { repeat split. }
  rewrite app_nil_r in E. rewrite E. simpl.
  destruct Hst as (_ & _ & Hw & Hh). unfold outcome. now rewrite Hw, Hh.
Qed.

(** A receive that fails before the timeout, after an uneventful stretch,
    ends the watch then and there, whatever would have come later. *)
Lemma recv_failure_cuts_wait_short (verbose : bool) (target : string) (max_wait : Z)
    (stretch later : list (Z * event)) (now : Z) :
  uneventful verbose target max_wait stretch = true ->
  now < 1000 * max_wait ->
  let '(st, at_ms) :=
    wait verbose target max_wait initial (stretch ++ (now, Recv RecvFailed) :: later) in
  at_ms = now /\ tws st = Finished /\ thttp st = Running /\ outcome st = TimedOut.
Proof.
  intros Hu Hnow.
  destruct (wait_through verbose target max_wait stretch ((now, Recv RecvFailed) :: later)
              initial Hu) as (st & (Ht & Hp & Hw & Hh) & E).
  { repeat split. }
  rewrite E, (recv_failure_ends_wait _ _ _ _ _ _ Ht Hw Hnow).
  unfold outcome. simpl. rewrite Hh. auto.
Qed.

End RaceFacts.

(** Whatever else the messages are, even ones the watcher cannot read: as
    long as none carries the target as its first path, the push flag stays
    down. *)
Lemma hear_never_confirms (verbose : bool) (target : string)
    (msgs : list Push.inbound) (st : Watch.state) :
  Watch.ws_ready st = false ->
  Forall (fun m => forall data,
              m = Push.Doc data -> Push.carried_first data <> Some (Json.Str target)) msgs ->
  Watch.ws_ready (Watch.hear verbose target st msgs) = false.
Proof.
  revert st. induction msgs as [|m msgs IH]; intros st Hr Hall; [exact Hr |].
  inversion Hall as [|? ? Hm Hrest]; subst. unfold Watch.hear in *. simpl.
  apply IH; [| exact Hrest].
  unfold Watch.ws_waiter_turn. destruct (Watch.tws st); auto. rewrite Hr.
  destruct (Push.on_message verbose target m) as [out v] eqn:E.
  destruct v; simpl; auto.
  assert (V : snd (Push.on_message verbose target m) = Push.Confirmed) by now rewrite E.
  apply confirmed_only_for_target in V as (data & -> & C).
  now destruct (Hm data eq_refl).
Qed.

(** C7, as the code has it.  For every sequence of inbound messages that
    the push watcher can read (text that is not JSON, or a JSON value on
    which none of its lookups raises) and none of which carries the target
    as the first element of its path list: the watcher never sets
    ConfirmedByPush and is still waiting after the last of them.  What it
    prints for them is printed in verbose mode only: a confirmation for
    another path gets the line [323 for], and the line [323 for different
    file] when the carried element is truthy; without [--verbose] nothing is
    logged. *)
Theorem other_paths_never_confirm
    (verbose : bool) (target : string) (st : Watch.state) (msgs : list Push.inbound) :
  Watch.tws st = Watch.Running ->
  Watch.ws_ready st = false ->
  Forall (fun m => snd (Push.on_message verbose target m) <> Push.Crashed) msgs ->
  Forall (fun m => forall data,
              m = Push.Doc data -> Push.carried_first data <> Some (Json.Str target)) msgs ->
  let st' := Watch.hear verbose target st msgs in
  Watch.ws_ready st' = false /\
  Watch.tws st' = Watch.Running /\
  Watch.http_ready st' = Watch.http_ready st /\
  (verbose = false -> Watch.shown st' = Watch.shown st) /\
  (forall data got,
      In (Push.Doc data) msgs -> Push.carried_first data = Some got ->
      Push.on_message verbose target (Push.Doc data) =
        ((Push.when verbose [Stdout (L323For got)] ++
          Push.when (verbose && Json.truthy got) [Stderr (L323Different got)])%list,
         Push.Continue)).
Proof.
  intros Ht Hr Hread Hother st'.
  assert (Hcont : Forall (fun m => snd (Push.on_message verbose target m) = Push.Continue) msgs).
  { rewrite Forall_forall in *. intros m Hm.
    destruct (snd (Push.on_message verbose target m)) eqn:V; [reflexivity | | ].
    - apply confirmed_only_for_target in V as (data & -> & C).
      now destruct (Hother _ Hm data eq_refl).
    - now destruct (Hread _ Hm). }
  destruct (hear_others verbose target msgs st Ht Hr Hcont) as (H1 & H2 & H3 & _ & H5).
  fold st' in H1, H2, H3, H5. repeat split; auto.
  - intros ->. rewrite H5.
    replace (flat_map (fun m => fst (Push.on_message false target m)) msgs)
      with (@nil effect); [apply app_nil_r |].
    clear. induction msgs as [|m msgs IH]; simpl; [reflexivity |].
    now rewrite on_message_silent.
  - intros data got Hin C. apply on_message_other_path; [exact C |].
    rewrite Forall_forall in Hother. specialize (Hother _ Hin data eq_refl).
    destruct got; simpl; try reflexivity.
    destruct (String.eqb s target) eqn:E; [| reflexivity].
    apply String.eqb_eq in E. subst s. now contradiction Hother.
Qed.

Lemma other_paths_never_confirm_witness :
  let other := Push.Doc (Push.make_export_cmd "/local/aic_tlp/B.mp4" "k" 7) in
  let msgs := [Push.NotJson; other; Push.Doc (Json.Obj [("Topic", Json.Str "status")])] in
  let st' := Watch.hear true "/local/aic_tlp/A.mp4" Watch.initial msgs in
  Watch.ws_ready st' = false /\
  Watch.tws st' = Watch.Running /\
  Watch.shown st' =
    [ Stdout (L323For (Json.Str "/local/aic_tlp/B.mp4"));
      Stderr (L323Different (Json.Str "/local/aic_tlp/B.mp4")) ].
Proof.
  intros other msgs st'.
  destruct (other_paths_never_confirm true "/local/aic_tlp/A.mp4" Watch.initial msgs)
    as (H1 & H2 & _).
  - reflexivity.
  - reflexivity.
  - repeat constructor; vm_compute; discriminate.
  - repeat constructor; intros data E; inversion E; subst; vm_compute; discriminate.
  - split; [exact H1 | split; [exact H2 | vm_compute; reflexivity]].
Defined.

(** C7 as stated fails twice over.  Without [--verbose] a confirmation for
    another path is not logged; and a message that is JSON but no object,
    here the array [[1]], is not skipped: the lookup raises, the push
    watcher ends, and with it the watch (five seconds in, with 180 allowed). *)
Lemma unlogged_and_unskipped_messages :
  Push.on_message false "/local/aic_tlp/A.mp4"
     (Push.Doc (Push.make_export_cmd "/local/aic_tlp/B.mp4" "k" 7))
    = ([], Push.Continue) /\
  Push.on_message true "/local/aic_tlp/A.mp4" (Push.Doc (Json.Arr [Json.Int 1]))
    = ([], Push.Crashed) /\
  (let '(st, at_ms) :=
     Watch.wait true "/local/aic_tlp/A.mp4" 180 Watch.initial
       [(5000, Watch.Recv (Push.RecvMsg (Push.Doc (Json.Arr [Json.Int 1]))));
        (6000, Watch.Probe true)] in
   Watch.tws st = Watch.Failed /\ Watch.outcome st = Watch.TimedOut /\ at_ms = 5000).
Proof. repeat split; vm_compute; reflexivity. Qed.

(** C1: what the code does when the receive of the push watcher fails one
    second into a watch of 180 seconds, the file becoming available half a
    second later.  The push watcher ends without setting a flag; the watch
    returns at once, the poll watcher is cancelled before its next probe, and
    the run fails with the timed-out error after 1000 ms. *)
Theorem recv_failure_fails_the_run_at_once :
  let w := App.mkWorld "id" 0
             [(0, Watch.Probe false); (1000, Watch.Recv Push.RecvFailed);
              (1500, Watch.Probe true)]
             false (fun _ => Download.Fetched) in
  let r := App.run w "printer" "/local/aic_tlp/A.mp4" false 180 true "out" false in
  Watch.tws (App.final r) = Watch.Finished /\
  Watch.ws_ready (App.final r) = false /\
  Watch.thttp (App.final r) = Watch.Cancelled /\
  Watch.outcome (App.final r) = Watch.TimedOut /\
  App.waited_ms r = 1000 /\
  App.ended r = Exit 1 /\
  App.effects r =
    [ SentExport (Push.make_export_cmd "/local/aic_tlp/A.mp4" "id" 0);
      Stdout (LExportRequested "/local/aic_tlp/A.mp4");
      Stderr LRecvError;
      Stderr (LTimedOut 180 "/local/aic_tlp/A.mp4") ].
Proof. repeat split; vm_compute; reflexivity. Qed.

(** ** The downloader *)

Section DownloadFacts.
Import Download.
Local Open Scope list_scope.

Variable answers : nat -> attempt.
Variables url dest : string.
Variable retries : Z.
Variable backoff : Q.
Variable verbose : bool.

Local Abbreviation go := (attempts answers url dest retries backoff verbose).

Lemma opened_urls_app (a b : list effect) :
  opened_urls (a ++ b) = (opened_urls a + opened_urls b)%nat.
Proof. unfold opened_urls. now rewrite filter_app, length_app. Qed.

Lemma sleeps_app (a b : list effect) : sleeps (a ++ b) = sleeps a ++ sleeps b.
Proof.
  induction a as [|e a IH]; [reflexivity |].
  destruct e; simpl; rewrite IH; reflexivity.
Qed.

(** One turn of the loop, case by case. *)
Lemma attempts_turn (todo : nat) (n : Z) (w : Q) :
  let start := Push.when verbose [Stdout (LAttempt n url dest)] ++ [UrlOpen url] in
  let opened := match answers (Z.to_nat n) with Refused _ => [] | _ => [OpenWrite dest] end in
  go (S todo) n w =
  match cause_of (answers (Z.to_nat n)) with
  | None => (true, start ++ opened ++ Push.when verbose [Stdout LSuccess])
  | Some e =>
      if n =? retries then (false, start ++ opened ++ [Stderr (LFailed e)])
      else (fst (go todo (n + 1) (Qmin (w * backoff) ceiling)),
            start ++ opened ++ [Slept w] ++
            snd (go todo (n + 1) (Qmin (w * backoff) ceiling)))
  end.
Proof.
  simpl.
  destruct (answers (Z.to_nat n)) as [| e | e]; simpl; [reflexivity | |];
    destruct (n =? retries); try reflexivity;
    destruct (attempts answers url dest retries backoff verbose todo (n + 1)
                       (Qmin (w * backoff) ceiling)); reflexivity.
Qed.

Lemma attempts_opened (todo : nat) (n : Z) (w : Q) :
  (opened_urls (snd (go todo n w)) <= todo)%nat.
Proof.
  revert n w. induction todo as [|todo IH]; intros n w; [apply Nat.le_refl |].
  rewrite attempts_turn.
  cbv zeta.
  assert (Hs : opened_urls (Push.when verbose [Stdout (LAttempt n url dest)]) = 0%nat)
    by (now destruct verbose).
  assert (Ho : opened_urls
                 (match answers (Z.to_nat n) with Refused _ => [] | _ => [OpenWrite dest] end)
               = 0%nat) by (now destruct (answers (Z.to_nat n))).
  destruct (cause_of (answers (Z.to_nat n))) as [e|]; [destruct (n =? retries) |];
    cbn [snd]; rewrite !opened_urls_app, Hs, Ho.
  - cbn. lia.
  - specialize (IH (n + 1) (Qmin (w * backoff) ceiling)). cbn. lia.
  - destruct verbose; cbn; lia.
Qed.

Lemma attempts_sleeps (todo : nat) (n : Z) (w : Q) :
  follows backoff w (sleeps (snd (go todo n w))).
Proof.
  revert n w. induction todo as [|todo IH]; intros n w; [exact I |].
  rewrite attempts_turn.
  cbv zeta.
  assert (Hs : sleeps (Push.when verbose [Stdout (LAttempt n url dest)]) = [])
    by (now destruct verbose).
  assert (Ho : sleeps
                 (match answers (Z.to_nat n) with Refused _ => [] | _ => [OpenWrite dest] end)
               = []) by (now destruct (answers (Z.to_nat n))).
  destruct (cause_of (answers (Z.to_nat n))) as [e|]; [destruct (n =? retries) |];
    cbn [snd]; rewrite !sleeps_app, Hs, Ho.
  - exact I.
  - cbn. split; [reflexivity | apply IH].
  - destruct verbose; exact I.
Qed.

(** When no attempt from [n] on succeeds, the last one ends the call. *)
Lemma attempts_exhausted (todo : nat) (n : Z) (w : Q) :
  n <= retries -> Z.of_nat todo = retries - n + 1 ->
  (forall k, n <= k <= retries -> answers (Z.to_nat k) <> Fetched) ->
  exists e before,
    cause_of (answers (Z.to_nat retries)) = Some e /\
    go todo n w = (false, before ++ [Stderr (LFailed e)]).
Proof.
  revert n w. induction todo as [|todo IH]; intros n w Hn Htodo Hfail; [lia |].
  rewrite attempts_turn. cbv zeta.
  destruct (cause_of (answers (Z.to_nat n))) as [e|] eqn:Hc.
  - destruct (n =? retries) eqn:Last.
    + apply Z.eqb_eq in Last. subst n. exists e. eexists. split; [exact Hc |].
      rewrite !app_assoc. reflexivity.
    + apply Z.eqb_neq in Last.
      destruct (IH (n + 1) (Qmin (w * backoff) ceiling)) as (e' & before & Hc' & E);
        [lia | lia | intros k Hk; apply Hfail; lia |].
      exists e'. eexists. split; [exact Hc' |]. rewrite E. cbn [fst snd].
      rewrite !app_assoc. reflexivity.
  - exfalso. apply (Hfail n); [lia |]. now destruct (answers (Z.to_nat n)).
Qed.

End DownloadFacts.

Section BackoffFacts.
Import Download.
Local Open Scope Q_scope.

Lemma next_wait_bounds (b w : Q) :
  1 <= b -> 0 <= w -> w <= ceiling ->
  w <= Qmin (w * b) ceiling /\ 0 <= Qmin (w * b) ceiling /\ Qmin (w * b) ceiling <= ceiling.
Proof.
  intros Hb H0 H8.
  assert (Hwb : w <= w * b).
  { assert (H : w * 1 <= w * b).
    { apply Qmult_le_compat_nonneg; split; auto; try apply Qle_refl.
      unfold Qle; simpl; lia. }
    now rewrite Qmult_1_r in H. }
  repeat split.
  - apply Q.min_glb; assumption.
  - apply Q.min_glb; [eapply Qle_trans; eassumption | unfold ceiling, Qle; simpl; lia].
  - apply Q.le_min_r.
Qed.

Lemma follows_is_capped_growth (b w : Q) (ws : list Q) :
  1 <= b -> 0 <= w -> w <= ceiling -> follows b w ws ->
  grows b ws /\ nondecreasing ws /\ Forall (fun d => d <= ceiling) ws.
Proof.
  intros Hb. revert w. induction ws as [|x ws IH]; intros w H0 H8 Hf.
  - repeat split. constructor.
  - destruct Hf as [-> Hf].
    destruct (next_wait_bounds b w Hb H0 H8) as (Hle & H0' & H8').
    destruct (IH _ H0' H8' Hf) as (Hg & Hn & Hall).
    repeat split.
    + destruct ws as [|y ws']; [exact I |]. destruct Hf as [-> _].
      split; [reflexivity | exact Hg].
    + destruct ws as [|y ws']; [exact I |]. destruct Hf as [-> _].
      split; [exact Hle | exact Hn].
    + constructor; assumption.
Qed.

End BackoffFacts.

(** C9, as the code has it.  For every source locator and destination path,
    with a growth factor of at least one (the program always uses 1.5): the
    downloader opens the URL at most [retries] times; the delays it sleeps
    between failed attempts start at one second, each is the one before
    times the factor clamped to the ceiling of eight seconds, so they never
    decrease and never exceed the ceiling; and when every attempt fails the
    call returns the bare flag [False] - the last underlying cause is not
    part of what is returned, it is written to the error stream as the last
    thing the call does. *)
Theorem download_is_bounded_and_backs_off
    (answers : nat -> Download.attempt) (url dest : string)
    (retries : Z) (backoff : Q) (verbose : bool) :
  (1 <= backoff)%Q ->
  let ok := fst (Download.download_file answers url dest retries backoff verbose) in
  let fx := snd (Download.download_file answers url dest retries backoff verbose) in
  (Download.opened_urls fx <= Z.to_nat retries)%nat /\
  Download.follows backoff 1 (Download.sleeps fx) /\
  Download.grows backoff (Download.sleeps fx) /\
  Download.nondecreasing (Download.sleeps fx) /\
  Forall (fun d => (d <= Download.ceiling)%Q) (Download.sleeps fx) /\
  (1 <= retries ->
   (forall k, 1 <= k <= retries -> answers (Z.to_nat k) <> Download.Fetched) ->
   ok = false /\
   exists e before,
     Download.cause_of (answers (Z.to_nat retries)) = Some e /\
     fx = (before ++ [Stderr (LFailed e)])%list).
Proof.
  intros Hb ok fx. subst ok fx. unfold Download.download_file.
  pose proof (attempts_sleeps answers url dest retries backoff verbose
                (Z.to_nat retries) 1 1) as Hf.
  assert (H0 : (0 <= 1)%Q) by (unfold Qle; simpl; lia).
  assert (H8 : (1 <= Download.ceiling)%Q) by (unfold Download.ceiling, Qle; simpl; lia).
  destruct (follows_is_capped_growth backoff 1 _ Hb H0 H8 Hf) as (Hg & Hn & Hall).
  split; [apply attempts_opened |]. repeat (split; [assumption |]).
  intros Hr Hfail.
  destruct (attempts_exhausted answers url dest retries backoff verbose
              (Z.to_nat retries) 1 1) as (e & before & Hc & E); [lia | lia | exact Hfail |].
  rewrite E. split; [reflexivity |]. now exists e, before.
Qed.

Lemma download_is_bounded_and_backs_off_witness :
  let answers := fun n : nat =>
    if Nat.eqb n 5 then Download.Broken "connection reset" else Download.Refused "HTTP Error 404" in
  Download.download_file answers "http://printer/A.mp4" "out/A.mp4" 5 (3 # 2) false =
    (false,
     [ UrlOpen "http://printer/A.mp4"; Slept 1;
       UrlOpen "http://printer/A.mp4"; Slept (3 # 2);
       UrlOpen "http://printer/A.mp4"; Slept (9 # 4);
       UrlOpen "http://printer/A.mp4"; Slept (27 # 8);
       UrlOpen "http://printer/A.mp4"; OpenWrite "out/A.mp4";
       Stderr (LFailed "connection reset") ]) /\
  Download.nondecreasing
    (Download.sleeps
       (snd (Download.download_file answers "http://printer/A.mp4" "out/A.mp4" 5 (3 # 2) false))).
Proof.
  intros answers. split; [vm_compute; reflexivity |].
  apply (download_is_bounded_and_backs_off answers "http://printer/A.mp4" "out/A.mp4"
           5 (3 # 2) false).
  unfold Qle; simpl; lia.
Defined.

(** C9 as stated fails in its last part: two calls that fail for different
    causes return the same value, [False]; the cause is in the error stream
    only, and [run] does not repeat it. *)
Lemma returned_failure_names_no_cause :
  let call := fun cause : string =>
    Download.download_file (fun _ => Download.Refused cause) "u" "d" 1 (3 # 2) false in
  call "connection reset" = (false, [UrlOpen "u"; Stderr (LFailed "connection reset")]) /\
  call "HTTP Error 404" = (false, [UrlOpen "u"; Stderr (LFailed "HTTP Error 404")]) /\
  fst (call "connection reset") = fst (call "HTTP Error 404").
Proof. repeat split. Qed.

(** ** Exit statuses *)

Section ExitFacts.
Import Watch App.
Local Open Scope list_scope.

(** How [run] ends, from the outcome of the watch and of the download. *)
Lemma run_ending (w : world) (host target : string) (check : bool) (max_wait : Z)
    (verbose : bool) (download_dir : string) (url_only : bool) :
  ended (run w host target check max_wait verbose download_dir url_only) =
  match outcome (fst (wait verbose target max_wait initial (trace w))) with
  | TimedOut => Exit 1
  | _ =>
      if url_only then Returned
      else if fst (Download.download_file (answers w) (http_url_of host target)
                     (Path.join download_dir (Path.basename target))
                     Download.default_retries Download.default_backoff verbose)
           then Returned else Exit 2
  end.
Proof.
  unfold run.
  destruct (wait verbose target max_wait initial (trace w)) as [st0 at_ms].
  cbv zeta. unfold cancel_watchers, outcome. cbn [fst ws_ready http_ready].
  destruct (Download.download_file (answers w) (http_url_of host target)
              (Path.join download_dir (Path.basename target))
              Download.default_retries Download.default_backoff verbose) as [success dl].
  destruct (ws_ready st0), (http_ready st0), url_only, success; reflexivity.
Qed.

Lemma main_status (urljoin : string -> string -> string) (gmtime_ok : Z -> bool)
    (a : args) (page : fetch) (w : world) :
  exit_status (snd (main urljoin gmtime_ok a page w)) =
  match target_of urljoin gmtime_ok a page with
  | Some target =>
      exit_status
        (ended (run w (host a) target (check a) (timeout a) (verbose a)
                    (out_dir a) (url_only a)))
  | None => if latest a then 1 else 2
  end.
Proof.
  unfold main, target_of.
  destruct (latest a).
  - unfold find_latest_mp4_path. destruct page as [html | e]; [| reflexivity].
    destruct (Listing.parse_latest_from_listing html) as [l|]; [| reflexivity].
    destruct (verbose a); [destruct (gmtime_ok (Listing.modified l)) |]; reflexivity.
  - destruct (no_file (file a)); reflexivity.
Qed.

End ExitFacts.

(** C3, as the code has it.  Invoked from the command line, a listing that
    cannot be resolved ends the process with exit status 1, a watch that
    times out ends it with exit status 1 as well, and a download that fails
    after its retries ends it with exit status 2: the download failure is
    told apart from the other two by the status, the other two from each
    other by their message only. *)
Theorem failure_exit_statuses
    (urljoin : string -> string -> string) (gmtime_ok : Z -> bool)
    (a : App.args) (page : App.fetch) (w : App.world) :
  let status := App.exit_status (snd (App.main urljoin gmtime_ok a page w)) in
  (App.latest a = true -> App.target_of urljoin gmtime_ok a page = None -> status = 1) /\
  (forall target,
      App.target_of urljoin gmtime_ok a page = Some target ->
      Watch.outcome (fst (Watch.wait (App.verbose a) target (App.timeout a) Watch.initial
                            (App.trace w))) = Watch.TimedOut ->
      status = 1) /\
  (forall target,
      App.target_of urljoin gmtime_ok a page = Some target ->
      Watch.outcome (fst (Watch.wait (App.verbose a) target (App.timeout a) Watch.initial
                            (App.trace w))) <> Watch.TimedOut ->
      App.url_only a = false ->
      fst (Download.download_file (App.answers w) (App.http_url_of (App.host a) target)
             (Path.join (App.out_dir a) (Path.basename target))
             Download.default_retries Download.default_backoff (App.verbose a)) = false ->
      status = 2).
Proof.
  intros status. subst status. rewrite main_status. repeat split.
  - intros Hl Ht. now rewrite Ht, Hl.
  - intros target Ht Ho. now rewrite Ht, run_ending, Ho.
  - intros target Ht Ho Hu Hd. rewrite Ht, run_ending, Hu, Hd.
    now destruct (Watch.outcome _).
Qed.

Lemma failure_exit_statuses_witness :
  let by_name := App.mkArgs "printer" (Some "A.mp4") false 5 false false
                            "/local/aic_tlp/" "out" false in
  let found := App.mkWorld "id" 0 [(0, Watch.Probe true)] false
                           (fun _ => Download.Refused "HTTP Error 404") in
  App.main Url.urljoin_paths Url.gmtime_ok_64 by_name (App.Page "") found =
    ([ SentExport (Push.make_export_cmd "/local/aic_tlp/A.mp4" "id" 0);
       Stdout (LExportRequested "/local/aic_tlp/A.mp4");
       Stdout (LReady "http://printer/local/aic_tlp/A.mp4");
       MakeDirs "out";
       UrlOpen "http://printer/local/aic_tlp/A.mp4"; Slept 1;
       UrlOpen "http://printer/local/aic_tlp/A.mp4"; Slept (3 # 2);
       UrlOpen "http://printer/local/aic_tlp/A.mp4"; Slept (9 # 4);
       UrlOpen "http://printer/local/aic_tlp/A.mp4"; Slept (27 # 8);
       UrlOpen "http://printer/local/aic_tlp/A.mp4";
       Stderr (LFailed "HTTP Error 404");
       Stderr (LDownloadFailed "http://printer/local/aic_tlp/A.mp4") ],
     Exit 2) /\
  App.exit_status
    (snd (App.main Url.urljoin_paths Url.gmtime_ok_64 by_name (App.Page "") found)) = 2.
Proof.
  intros by_name found. split; [vm_compute; reflexivity |].
  apply (failure_exit_statuses Url.urljoin_paths Url.gmtime_ok_64 by_name (App.Page "") found)
    with (target := "/local/aic_tlp/A.mp4").
  - reflexivity.
  - vm_compute. discriminate.
  - reflexivity.
  - vm_compute. reflexivity.
Defined.

(** C3 as stated fails: an unresolved listing and a timed-out watch end the
    process with the same exit status. *)
Lemma unresolved_and_timed_out_share_status :
  let pick_latest := App.mkArgs "printer" None false 5 false true
                                "/local/aic_tlp/" "out" false in
  let by_name := App.mkArgs "printer" (Some "A.mp4") false 5 false false
                            "/local/aic_tlp/" "out" false in
  let silent := App.mkWorld "id" 0 [(0, Watch.Probe false); (1500, Watch.Probe false)]
                            false (fun _ => Download.Fetched) in
  App.main Url.urljoin_paths Url.gmtime_ok_64 pick_latest
    (App.Page "<html><body></body></html>") silent
    = ([Stderr LNoEntries], Exit 1) /\
  App.main Url.urljoin_paths Url.gmtime_ok_64 by_name (App.Page "") silent
    = ([ SentExport (Push.make_export_cmd "/local/aic_tlp/A.mp4" "id" 0);
         Stdout (LExportRequested "/local/aic_tlp/A.mp4");
         Stderr (LTimedOut 5 "/local/aic_tlp/A.mp4") ],
       Exit 1).
Proof. split; vm_compute; reflexivity. Qed.

(** ** The scenarios of the specification, run on the model *)

(** The printer's echo of the request is a qualifying confirmation. *)
Lemma echo_confirms (verbose : bool) (target request_id : string) (now_ms : Z) :
  snd (Push.on_message verbose target
         (Push.Doc (Push.make_export_cmd target request_id now_ms))) = Push.Confirmed.
Proof.
  unfold Push.on_message, Push.make_export_cmd. simpl. now rewrite String.eqb_refl.
Qed.

(** Two entries with the ordinals 100 and 200: the second is selected. *)
Example listing_picks_greatest_ordinal :
  App.find_latest_mp4_path Url.urljoin_paths Url.gmtime_ok_64
    (App.Page (Listing.q
       "<table>
        <tr><td name='100'><a href='/local/aic_tlp/A/'>A/</a></td></tr>
        <tr><td name='200'><a href='/local/aic_tlp/B/'>B/</a></td></tr>
        </table>"))
    "printer" "/local/aic_tlp/" false
  = ([], App.Resolved "/local/aic_tlp/B.mp4").
Proof. vm_compute. reflexivity. Qed.

(** Of two entries with the same ordinal the first is kept; a row without
    an ordinal and a row whose only anchor points at an [.mp4] file do not
    count. *)
Example listing_tie_keeps_first :
  Listing.parse_latest_from_listing (Listing.q
     "<tr><td name='300'><a href='first/'>first/</a></td></tr>
      <tr><td name='300'><a href='second/'>second/</a></td></tr>
      <tr><td><a href='undated/'>undated/</a></td></tr>
      <tr><td name='900'><a href='/local/aic_tlp/ready.mp4'>ready</a></td></tr>")
  = Some (Listing.mkEntry "first/" "first/" 300).
Proof. vm_compute. reflexivity. Qed.

(** The latest entry is resolved, the push watcher confirms it at once, the
    first download attempt succeeds: the file is saved under the output
    directory. *)
Example latest_confirmed_and_saved :
  App.main Url.urljoin_paths Url.gmtime_ok_64
    (App.mkArgs "printer" None false 180 false true "/local/aic_tlp/" "out" false)
    (App.Page (Listing.q
       "<tr><td name='100'><a href='/local/aic_tlp/A/'>A/</a></td></tr>
        <tr><td name='200'><a href='/local/aic_tlp/B/'>B/</a></td></tr>"))
    (App.mkWorld "id" 0
       [(0, Watch.Recv (Push.RecvMsg
               (Push.Doc (Push.make_export_cmd "/local/aic_tlp/B.mp4" "id" 0))))]
       false (fun _ => Download.Fetched))
  = ([ SentExport (Push.make_export_cmd "/local/aic_tlp/B.mp4" "id" 0);
       Stdout (LExportRequested "/local/aic_tlp/B.mp4");
       Stdout (LReady "http://printer/local/aic_tlp/B.mp4");
       MakeDirs "out";
       UrlOpen "http://printer/local/aic_tlp/B.mp4";
       OpenWrite "out/B.mp4";
       Stdout (LSaved "out/B.mp4") ],
     Returned).
Proof. vm_compute. reflexivity. Qed.

(** When the poll watcher confirms first, the push watcher is cancelled. *)
Example poll_confirms_first :
  let '(st, at_ms) :=
    Watch.wait false "/local/aic_tlp/A.mp4" 180 Watch.initial
      [(0, Watch.Probe false); (1500, Watch.Probe true);
       (2000, Watch.Recv (Push.RecvMsg
                 (Push.Doc (Push.make_export_cmd "/local/aic_tlp/A.mp4" "id" 0))))] in
  Watch.outcome st = Watch.ConfirmedByPoll /\
  Watch.tws (Watch.cancel_watchers st) = Watch.Cancelled /\
  at_ms = 1500.
Proof. vm_compute. repeat split. Qed.

(** In verbose mode an ordinal that [time.gmtime] rejects stops the resolver
    with an uncaught exception, after the line about the fetch. *)
Example verbose_listing_with_far_ordinal :
  App.main Url.urljoin_paths Url.gmtime_ok_64
    (App.mkArgs "printer" None false 180 true true "/local/aic_tlp/" "out" false)
    (App.Page (Listing.q
       "<tr><td name='99999999999999999999'><a href='/local/aic_tlp/A/'>A/</a></td></tr>"))
    (App.mkWorld "id" 0 [] false (fun _ => Download.Fetched))
  = ([Stdout (LFetching "http://printer/local/aic_tlp/")], Uncaught).
Proof. vm_compute. reflexivity. Qed.

(** * Further properties of the code *)

(** ** The flags and the delay of the poll watcher *)

Section FlagsAndDelay.
Import Json Push Watch.
Local Open Scope list_scope.
Local Arguments Z.mul : simpl never.

Lemma step_keeps_flags_up (verbose : bool) (target : string) (max_wait : Z)
    (st : state) (now : Z) (ev : event) :
  (ws_ready st = true -> ws_ready (step verbose target max_wait st now ev) = true) /\
  (http_ready st = true -> http_ready (step verbose target max_wait st now ev) = true).
Proof.
  destruct ev as [r | found | sent]; simpl.
  - unfold ws_waiter_turn. destruct (tws st); auto.
    destruct (ws_ready st) eqn:W; [simpl; auto |].
    destruct r as [| | m]; [| | destruct (on_message verbose target m) as [out [| |]]];
      simpl; split; intros; auto; congruence.
  - unfold http_waiter_turn. destruct (thttp st); auto.
    destruct ((now <? 1000 * max_wait) && negb (http_ready st)); [destruct found |];
      simpl; auto.
  - unfold keepalive_turn. destruct (ka st); auto. destruct sent; simpl; auto.
Qed.

Lemma step_delay (verbose : bool) (target : string) (max_wait : Z)
    (st : state) (now : Z) (ev : event) :
  delay_in_range st ->
  delay_in_range (step verbose target max_wait st now ev) /\
  (delay st <= delay (step verbose target max_wait st now ev))%Q.
Proof.
  intros [Hlo Hhi]. unfold delay_in_range.
  assert (Hgrow : (delay st <= delay st * (3 # 2))%Q).
  { assert (H : (delay st * 1 <= delay st * (3 # 2))%Q).
    { apply Qmult_le_compat_nonneg; split; try apply Qle_refl;
        try (unfold Qle; simpl; lia).
      eapply Qle_trans; [| exact Hlo]. unfold Qle; simpl; lia. }
    now rewrite Qmult_1_r in H. }
  assert (Hnext : (3 # 2 <= Qmin (delay st * (3 # 2)) 5)%Q /\
                  (Qmin (delay st * (3 # 2)) 5 <= 5)%Q /\
                  (delay st <= Qmin (delay st * (3 # 2)) 5)%Q).
  { repeat split.
    - apply Q.min_glb; [eapply Qle_trans; eassumption | unfold Qle; simpl; lia].
    - apply Q.le_min_r.
    - apply Q.min_glb; assumption. }
  destruct Hnext as (N1 & N2 & N3).
  destruct ev as [r | found | sent]; simpl.
  - unfold ws_waiter_turn. destruct (tws st); try (repeat split; auto; apply Qle_refl).
    destruct (ws_ready st); [simpl; repeat split; auto; apply Qle_refl |].
    destruct r as [| | m]; simpl; try (repeat split; auto; apply Qle_refl).
    destruct (on_message verbose target m) as [out v].
    destruct v; simpl; repeat split; auto; apply Qle_refl.
  - unfold http_waiter_turn. destruct (thttp st); try (repeat split; auto; apply Qle_refl).
    destruct ((now <? 1000 * max_wait) && negb (http_ready st)); [destruct found |];
      simpl; repeat split; auto; apply Qle_refl.
  - unfold keepalive_turn. destruct (ka st); try (repeat split; auto; apply Qle_refl).
    destruct sent; simpl; repeat split; auto; apply Qle_refl.
Qed.

Lemma wait_keeps_flags_up (verbose : bool) (target : string) (max_wait : Z)
    (trace : list (Z * event)) (st : state) :
  (ws_ready st = true -> ws_ready (fst (wait verbose target max_wait st trace)) = true) /\
  (http_ready st = true -> http_ready (fst (wait verbose target max_wait st trace)) = true).
Proof.
  revert st. induction trace as [|[now ev] trace IH]; intros st; simpl; auto.
  destruct (1000 * max_wait <=? now); simpl; auto.
  destruct (step_keeps_flags_up verbose target max_wait st now ev) as [Hw Hh].
  destruct (done (tws (step verbose target max_wait st now ev))
            || done (thttp (step verbose target max_wait st now ev))); simpl; auto.
  destruct (IH (step verbose target max_wait st now ev)) as [Hw' Hh']. auto.
Qed.

Lemma wait_delay (verbose : bool) (target : string) (max_wait : Z)
    (trace : list (Z * event)) (st : state) :
  delay_in_range st ->
  delay_in_range (fst (wait verbose target max_wait st trace)) /\
  (delay st <= delay (fst (wait verbose target max_wait st trace)))%Q.
Proof.
  revert st. induction trace as [|[now ev] trace IH]; intros st Hst; simpl.
  - split; [exact Hst | apply Qle_refl].
  - destruct (1000 * max_wait <=? now); simpl; [split; [exact Hst | apply Qle_refl] |].
    destruct (step_delay verbose target max_wait st now ev Hst) as [Hr Hle].
    destruct (done (tws (step verbose target max_wait st now ev))
              || done (thttp (step verbose target max_wait st now ev))); simpl; [auto |].
    destruct (IH _ Hr) as [Hr' Hle']. split; [exact Hr' | eapply Qle_trans; eassumption].
Qed.

End FlagsAndDelay.

(** X3.  No turn of a task ever clears a completion flag: an event that is
    set when the wait begins, or at any point of it, is still set when the
    wait returns. *)
Theorem flags_only_go_up
    (verbose : bool) (target : string) (max_wait : Z)
    (st : Watch.state) (now : Z) (ev : Watch.event) (later : list (Z * Watch.event)) :
  let st1 := Watch.step verbose target max_wait st now ev in
  let st2 := fst (Watch.wait verbose target max_wait st1 later) in
  (Watch.ws_ready st = true -> Watch.ws_ready st1 = true /\ Watch.ws_ready st2 = true) /\
  (Watch.http_ready st = true -> Watch.http_ready st1 = true /\ Watch.http_ready st2 = true).
Proof.
  intros st1 st2.
  destruct (step_keeps_flags_up verbose target max_wait st now ev) as [Hw Hh].
  destruct (wait_keeps_flags_up verbose target max_wait later st1) as [Hw' Hh'].
  split; intros H; split; auto.
Qed.

(** X4.  The delay between two existence probes starts at 1.5 s, never
    shrinks, and never leaves the range from 1.5 s to the ceiling of 5 s,
    however many probes fail. *)
Theorem poll_delay_stays_in_range
    (verbose : bool) (target : string) (max_wait : Z) (trace : list (Z * Watch.event)) :
  let st := fst (Watch.wait verbose target max_wait Watch.initial trace) in
  (3 # 2 <= Watch.delay st)%Q /\ (Watch.delay st <= 5)%Q /\
  forall now ev,
    (Watch.delay st <= Watch.delay (Watch.step verbose target max_wait st now ev))%Q /\
    (Watch.delay (Watch.step verbose target max_wait st now ev) <= 5)%Q.
Proof.
  intros st.
  assert (H0 : Watch.delay_in_range Watch.initial)
    by (split; unfold Qle; simpl; lia).
  destruct (wait_delay verbose target max_wait trace Watch.initial H0) as [Hr _].
  fold st in Hr. destruct Hr as [Hlo Hhi]. repeat split; auto.
  - now destruct (step_delay verbose target max_wait st now ev (conj Hlo Hhi)) as [_ H].
  - now destruct (step_delay verbose target max_wait st now ev (conj Hlo Hhi)) as [[_ H] _].
Qed.

(** ** The keepalive *)

Section KeepaliveFacts.
Import Json Push Watch.
Local Open Scope list_scope.
Local Arguments Z.mul : simpl never.

(** Two states that differ at most in the keepalive task and in the pings
    recorded. *)
Let alike (st1 st2 : state) : Prop :=
  ws_ready st1 = ws_ready st2 /\ http_ready st1 = http_ready st2 /\
  tws st1 = tws st2 /\ thttp st1 = thttp st2 /\ delay st1 = delay st2 /\
  filter not_sent_ping (shown st1) = shown st2.

Lemma on_message_sends_no_ping (verbose : bool) (target : string) (m : inbound) :
  filter not_sent_ping (fst (on_message verbose target m)) = fst (on_message verbose target m).
Proof.
  destruct m as [| data]; [reflexivity |]. unfold on_message.
  destruct (get (or_dict data) "Data") as [d0|]; [| reflexivity]. cbv zeta.
  destruct (get (or_dict d0) "Cmd") as [cmd|]; [| reflexivity].
  destruct (eq_int cmd 323); [| reflexivity].
  destruct (get (or_dict d0) "Data") as [dd|]; [| reflexivity].
  destruct (get (or_dict dd) "Url") as [u|]; [| reflexivity].
  destruct (first_or_none (or_list u)) as [got|]; [| reflexivity].
  destruct (eq_str got target), verbose, (truthy got); reflexivity.
Qed.

Lemma step_alike (verbose : bool) (target : string) (max_wait : Z)
    (st1 st2 : state) (now : Z) (ev : event) :
  alike st1 st2 -> is_ping ev = false ->
  alike (step verbose target max_wait st1 now ev) (step verbose target max_wait st2 now ev).
Proof.
  intros (A & B & C & D & E & F) Hev. unfold alike.
  destruct ev as [r | found | sent]; [| | discriminate]; simpl.
  - unfold ws_waiter_turn. rewrite <- A, <- C.
    destruct (tws st1) eqn:T; try (repeat split; congruence).
    destruct (ws_ready st1) eqn:W; [simpl; repeat split; congruence |].
    destruct r as [| | m].
    + repeat split; congruence.
    + simpl. rewrite filter_app, F. repeat split; try congruence.
      now destruct verbose.
    + pose proof (on_message_sends_no_ping verbose target m) as Hm.
      destruct (on_message verbose target m) as [out v]. simpl in Hm.
      destruct v; simpl; rewrite filter_app, F, Hm; repeat split; congruence.
  - unfold http_waiter_turn. rewrite <- B, <- D.
    destruct (thttp st1) eqn:T; try (repeat split; congruence).
    destruct ((now <? 1000 * max_wait) && negb (http_ready st1)); [destruct found |];
      simpl; repeat split; congruence.
Qed.

Lemma ping_alike (st1 st2 : state) (sent : bool) :
  alike st1 st2 -> alike (keepalive_turn st1 sent) st2.
Proof.
  intros (A & B & C & D & E & F). unfold alike, keepalive_turn.
  destruct (ka st1); [destruct sent |..]; simpl; repeat split; auto.
  rewrite filter_app, F. simpl. apply app_nil_r.
Qed.

Lemma in_order_later (t : Z) (ev : event) (later : list (Z * event)) :
  in_order ((t, ev) :: later) ->
  in_order later /\ forall te, In te later -> t <= fst te.
Proof.
  revert t ev. induction later as [|[t2 e2] later IH]; intros t ev H.
  - split; [exact I | intros te []].
  - destruct H as [Hle H]. split; [exact H |].
    destruct (IH _ _ H) as [_ Hall].
    intros te [<- | Hin]; [exact Hle |]. specialize (Hall _ Hin). lia.
Qed.

Lemma wait_after_deadline (verbose : bool) (target : string) (max_wait : Z)
    (st : state) (trace : list (Z * event)) :
  (forall te, In te trace -> 1000 * max_wait <= fst te) ->
  wait verbose target max_wait st trace = (st, 1000 * max_wait).
Proof.
  destruct trace as [|[now ev] later]; intros H; simpl; [reflexivity |].
  specialize (H (now, ev) (or_introl eq_refl)). simpl in H.
  apply Z.leb_le in H. now rewrite H.
Qed.

Lemma wait_alike (verbose : bool) (target : string) (max_wait : Z)
    (trace : list (Z * event)) (st1 st2 : state) :
  in_order trace -> alike st1 st2 ->
  done (tws st1) || done (thttp st1) = false ->
  alike (fst (wait verbose target max_wait st1 trace))
        (fst (wait verbose target max_wait st2 (without_pings trace))) /\
  snd (wait verbose target max_wait st1 trace)
  = snd (wait verbose target max_wait st2 (without_pings trace)).
Proof.
  revert st1 st2. induction trace as [|[now ev] trace IH]; intros st1 st2 Ho Ha Hrun.
  - simpl. auto.
  - destruct (in_order_later _ _ _ Ho) as [Ho' Hafter].
    cbn [wait]. destruct (1000 * max_wait <=? now) eqn:L.
    + apply Z.leb_le in L.
      rewrite (wait_after_deadline verbose target max_wait st2).
      * simpl. auto.
      * intros te Hin. unfold without_pings in Hin. apply filter_In in Hin as [Hin _].
        destruct Hin as [<- | Hin]; [exact L |]. specialize (Hafter _ Hin). lia.
    + unfold without_pings. cbn [filter snd]. destruct (is_ping ev) eqn:P; cbn [negb].
      * destruct ev as [| | sent]; try discriminate. cbn [step].
        assert (Hk : done (tws (keepalive_turn st1 sent))
                     || done (thttp (keepalive_turn st1 sent)) = false).
        { unfold keepalive_turn. destruct (ka st1); [destruct sent |..]; exact Hrun. }
        rewrite Hk. apply IH; [exact Ho' | now apply ping_alike | exact Hk].
      * cbn [wait]. rewrite L.
        pose proof (step_alike verbose target max_wait st1 st2 now ev Ha P) as Ha'.
        destruct Ha' as (A & B & C & D & E & F).
        rewrite <- C, <- D.
        destruct (done (tws (step verbose target max_wait st1 now ev))
                  || done (thttp (step verbose target max_wait st1 now ev))) eqn:Dn.
        -- simpl. repeat split; auto.
        -- apply IH; [exact Ho' | repeat split; auto | exact Dn].
Qed.

End KeepaliveFacts.

(** X5.  The keepalive never changes the result of the watch.  For every
    trace in the order of time, taking the turns of the keepalive task out
    (whether its sends succeed or raise) leaves the two flags, the state of
    the two watchers, the time at which the wait returns and everything that
    is printed as they are, and so the way [run] ends; only the pings sent
    are missing. *)
Theorem keepalive_changes_nothing
    (w : App.world) (host target : string) (check : bool) (max_wait : Z)
    (verbose : bool) (download_dir : string) (url_only : bool) :
  Watch.in_order (App.trace w) ->
  let quiet_world :=
    App.mkWorld (App.request_id w) (App.now_ms w) (Watch.without_pings (App.trace w))
                (App.post_probe w) (App.answers w) in
  let r1 := Watch.wait verbose target max_wait Watch.initial (App.trace w) in
  let r2 := Watch.wait verbose target max_wait Watch.initial
              (Watch.without_pings (App.trace w)) in
  snd r1 = snd r2 /\
  Watch.ws_ready (fst r1) = Watch.ws_ready (fst r2) /\
  Watch.http_ready (fst r1) = Watch.http_ready (fst r2) /\
  Watch.tws (fst r1) = Watch.tws (fst r2) /\
  Watch.thttp (fst r1) = Watch.thttp (fst r2) /\
  filter Watch.not_sent_ping (Watch.shown (fst r1)) = Watch.shown (fst r2) /\
  App.ended (App.run w host target check max_wait verbose download_dir url_only)
  = App.ended (App.run quiet_world host target check max_wait verbose download_dir url_only).
Proof.
  intros Ho quiet_world r1 r2.
  destruct (wait_alike verbose target max_wait (App.trace w) Watch.initial Watch.initial Ho)
    as [(A & B & C & D & E & F) T]; [repeat split | reflexivity |].
  fold r1 r2 in A, B, C, D, E, F, T.
  repeat (split; [assumption |]).
  rewrite !run_ending. subst quiet_world. cbn [App.trace App.answers].
  fold r1 r2. unfold Watch.outcome. now rewrite A, B.
Qed.

Lemma keepalive_changes_nothing_witness :
  let trace :=
    [ (0, Watch.Probe false); (1500, Watch.Probe false);
      (20000, Watch.Ping true); (40000, Watch.Ping false);
      (41000, Watch.Recv (Push.RecvMsg
                 (Push.Doc (Push.make_export_cmd "/local/aic_tlp/A.mp4" "x" 1)))) ] in
  Watch.wait true "/local/aic_tlp/A.mp4" 180 Watch.initial trace
  = (Watch.mkState true false Watch.Finished Watch.Running Watch.Finished (27 # 8)
       [SentPing; Stdout (L323For (Json.Str "/local/aic_tlp/A.mp4"))], 41000) /\
  snd (Watch.wait true "/local/aic_tlp/A.mp4" 180 Watch.initial trace)
  = snd (Watch.wait true "/local/aic_tlp/A.mp4" 180 Watch.initial (Watch.without_pings trace)).
Proof.
  intros trace. split; [vm_compute; reflexivity |].
  apply (keepalive_changes_nothing
           (App.mkWorld "id" 0 trace false (fun _ => Download.Fetched))
           "printer" "/local/aic_tlp/A.mp4" false 180 true "out" false).
  vm_compute. repeat split; discriminate.
Defined.

(** ** The moment the wait returns *)

Section WaitReturns.
Import Json Push Watch.
Local Open Scope list_scope.
Local Arguments Z.mul : simpl never.

Lemma run_waited (w : App.world) (host target : string) (check : bool) (max_wait : Z)
    (verbose : bool) (download_dir : string) (url_only : bool) :
  App.waited_ms (App.run w host target check max_wait verbose download_dir url_only)
  = snd (wait verbose target max_wait initial (App.trace w)).
Proof.
  unfold App.run.
  destruct (wait verbose target max_wait initial (App.trace w)) as [st0 at_ms].
  cbv zeta. cbn [snd].
  destruct (Download.download_file _ _ _ _ _ _) as [success dl].
  repeat match goal with
         | |- context [if ?b then _ else _] => destruct b
         end; reflexivity.
Qed.

End WaitReturns.

(** ** The downloader, attempt by attempt *)

Section AttemptFacts.
Import Download.
Local Open Scope list_scope.

Variable answers : nat -> attempt.
Variables url dest : string.
Variable retries : Z.
Variable backoff : Q.
Variable verbose : bool.

Local Abbreviation go := (attempts answers url dest retries backoff verbose).

Lemma cause_of_none (a : attempt) : cause_of a = None <-> a = Fetched.
Proof. destruct a; simpl; split; intros H; congruence. Qed.

(** The loop succeeds exactly when an attempt it gets to is fetched. *)
Lemma attempts_succeed_iff (todo : nat) (n : Z) (w : Q) :
  n <= retries + 1 -> Z.of_nat todo = retries - n + 1 ->
  (fst (go todo n w) = true <->
   exists k, n <= k <= retries /\ answers (Z.to_nat k) = Fetched).
Proof.
  revert n w. induction todo as [|todo IH]; intros n w Hn Htodo.
  - simpl. split; [discriminate | intros (k & Hk & _); lia].
  - rewrite attempts_turn. cbv zeta.
    destruct (cause_of (answers (Z.to_nat n))) as [e|] eqn:Hc.
    + assert (Hnot : answers (Z.to_nat n) <> Fetched)
        by (intros F; rewrite F in Hc; discriminate).
      destruct (n =? retries) eqn:Last.
      * apply Z.eqb_eq in Last. subst n. cbn [fst].
        split; [discriminate |]. intros (k & Hk & F).
        assert (k = retries) by lia. subst k. contradiction.
      * apply Z.eqb_neq in Last. cbn [fst].
        rewrite (IH (n + 1) (Qmin (w * backoff) ceiling)) by lia.
        split; intros (k & Hk & F); exists k; (split; [| exact F]); [lia |].
        assert (k <> n) by (intros ->; contradiction). lia.
    + apply cause_of_none in Hc. cbn [fst]. split; [| reflexivity].
      intros _. exists n. split; [lia | exact Hc].
Qed.

(** What the loop does when the first fetched attempt is number [k]. *)
Lemma attempts_until_fetched (todo : nat) (n k : Z) (w : Q) :
  n <= k <= retries -> Z.of_nat todo = retries - n + 1 ->
  (forall j, n <= j < k -> answers (Z.to_nat j) <> Fetched) ->
  answers (Z.to_nat k) = Fetched ->
  fst (go todo n w) = true /\
  opened_urls (snd (go todo n w)) = Z.to_nat (k - n + 1) /\
  List.length (sleeps (snd (go todo n w))) = Z.to_nat (k - n) /\
  exists before,
    snd (go todo n w) = before ++ [OpenWrite dest] ++ Push.when verbose [Stdout LSuccess].
Proof.
  revert n w. induction todo as [|todo IH]; intros n w Hk Htodo Hfail Hgood; [lia |].
  rewrite attempts_turn. cbv zeta.
  assert (Hs : opened_urls (Push.when verbose [Stdout (LAttempt n url dest)]) = 0%nat)
    by (now destruct verbose).
  assert (Hs' : sleeps (Push.when verbose [Stdout (LAttempt n url dest)]) = [])
    by (now destruct verbose).
  destruct (Z.eq_dec n k) as [-> | Hne].
  - rewrite Hgood. cbn [cause_of fst snd].
    replace (k - k + 1) with 1 by lia. replace (k - k) with 0 by lia.
    repeat split.
    + rewrite !opened_urls_app, Hs. now destruct verbose.
    + rewrite !sleeps_app, Hs'. now destruct verbose.
    + eexists. reflexivity.
  - assert (Hn : answers (Z.to_nat n) <> Fetched) by (apply Hfail; lia).
    destruct (cause_of (answers (Z.to_nat n))) as [e|] eqn:Hc;
      [| apply cause_of_none in Hc; contradiction].
    destruct (n =? retries) eqn:Last; [apply Z.eqb_eq in Last; lia |].
    destruct (IH (n + 1) (Qmin (w * backoff) ceiling)) as (H1 & H2 & H3 & before & H4);
      [lia | lia | intros j Hj; apply Hfail; lia | exact Hgood |].
    assert (Ho : opened_urls
                   (match answers (Z.to_nat n) with Refused _ => [] | _ => [OpenWrite dest] end)
                 = 0%nat) by (now destruct (answers (Z.to_nat n))).
    assert (Ho' : sleeps
                    (match answers (Z.to_nat n) with Refused _ => [] | _ => [OpenWrite dest] end)
                  = []) by (now destruct (answers (Z.to_nat n))).
    cbn [fst snd]. repeat split.
    + exact H1.
    + rewrite !opened_urls_app, Hs, Ho, H2. cbn.
      replace (k - n + 1) with (Z.succ (k - (n + 1) + 1)) by lia.
      rewrite Z2Nat.inj_succ by lia. reflexivity.
    + rewrite !sleeps_app, Hs', Ho'. cbn. rewrite H3.
      replace (k - n) with (Z.succ (k - (n + 1))) by lia.
      rewrite Z2Nat.inj_succ by lia. reflexivity.
    + rewrite H4.
      exists ((Push.when verbose [Stdout (LAttempt n url dest)] ++ [UrlOpen url]) ++
              match answers (Z.to_nat n) with Refused _ => [] | _ => [OpenWrite dest] end ++
              [Slept w] ++ before).
      rewrite <- !app_assoc. reflexivity.
Qed.

(** Everything the loop does is the downloader's own, and the only file it
    opens is the destination. *)
Lemma attempts_effects (todo : nat) (n : Z) (w : Q) :
  Forall (fun e => is_download e = true /\ (is_open_write e = true -> e = OpenWrite dest))
         (snd (go todo n w)).
Proof.
  revert n w. induction todo as [|todo IH]; intros n w; [constructor |].
  rewrite attempts_turn. cbv zeta.
  assert (Hown : forall e, is_download e = true -> is_open_write e = false ->
                 is_download e = true /\ (is_open_write e = true -> e = OpenWrite dest)).
  { intros e H1 H2. split; [exact H1 | congruence]. }
  assert (Hstart : Forall (fun e => is_download e = true /\
                                    (is_open_write e = true -> e = OpenWrite dest))
                     (Push.when verbose [Stdout (LAttempt n url dest)] ++ [UrlOpen url])).
  { apply Forall_app. split; [destruct verbose |]; repeat constructor; try discriminate. }
  assert (Hopened : Forall (fun e => is_download e = true /\
                                     (is_open_write e = true -> e = OpenWrite dest))
                      (match answers (Z.to_nat n) with
                       | Refused _ => [] | _ => [OpenWrite dest] end)).
  { destruct (answers (Z.to_nat n)); repeat constructor; auto. }
  destruct (cause_of (answers (Z.to_nat n))) as [c|]; [destruct (n =? retries) |];
    cbn [snd]; repeat (apply Forall_app; split); auto;
    try (destruct verbose); repeat constructor; try discriminate.
Qed.

(** Attempts that are refused never reach the file. *)
Lemma attempts_refused (todo : nat) (n : Z) (w : Q) :
  Z.of_nat todo <= retries - n + 1 ->
  (forall j, n <= j <= retries -> exists c, answers (Z.to_nat j) = Refused c) ->
  filter is_open_write (snd (go todo n w)) = [].
Proof.
  revert n w. induction todo as [|todo IH]; intros n w Htodo Href; [reflexivity |].
  rewrite attempts_turn. cbv zeta.
  destruct (Href n) as [c Hc]; [lia |]. rewrite Hc. cbn [cause_of].
  assert (Hs : filter is_open_write (Push.when verbose [Stdout (LAttempt n url dest)]) = [])
    by (now destruct verbose).
  destruct (n =? retries) eqn:Last; cbn [snd]; rewrite !filter_app, Hs; [reflexivity |].
  apply Z.eqb_neq in Last. cbn. apply IH; [lia | intros j Hj; apply Href; lia].
Qed.

End AttemptFacts.

(** X9.  The download succeeds exactly when one of the attempts within the
    budget is fetched; with a budget of zero or less the call returns
    [False] without opening the URL, touching the file or printing. *)
Theorem download_succeeds_iff_fetched
    (answers : nat -> Download.attempt) (url dest : string)
    (retries : Z) (backoff : Q) (verbose : bool) :
  (fst (Download.download_file answers url dest retries backoff verbose) = true <->
   exists k, 1 <= k <= retries /\ answers (Z.to_nat k) = Download.Fetched) /\
  (retries <= 0 ->
   Download.download_file answers url dest retries backoff verbose = (false, [])).
Proof.
  unfold Download.download_file. split.
  - destruct (Z_le_gt_dec 0 retries) as [Hr | Hr].
    + apply attempts_succeed_iff; [lia | rewrite Z2Nat.id; lia].
    + replace (Z.to_nat retries) with 0%nat by lia. simpl.
      split; [discriminate | intros (k & Hk & _); lia].
  - intros Hr. replace (Z.to_nat retries) with 0%nat by lia. reflexivity.
Qed.

(** X10.  The download stops at the first attempt that is fetched: if the
    attempts before number [k] fail and number [k] is fetched, the call
    returns [True] after opening the URL [k] times and sleeping [k - 1]
    times, and the last thing it does, the success line of verbose mode
    apart, is to write the destination. *)
Theorem download_stops_at_first_fetched
    (answers : nat -> Download.attempt) (url dest : string)
    (retries : Z) (backoff : Q) (verbose : bool) (k : Z) :
  1 <= k <= retries ->
  (forall j, 1 <= j < k -> answers (Z.to_nat j) <> Download.Fetched) ->
  answers (Z.to_nat k) = Download.Fetched ->
  let r := Download.download_file answers url dest retries backoff verbose in
  fst r = true /\
  Download.opened_urls (snd r) = Z.to_nat k /\
  List.length (Download.sleeps (snd r)) = Z.to_nat (k - 1) /\
  exists before,
    snd r = (before ++ [OpenWrite dest] ++ Push.when verbose [Stdout LSuccess])%list.
Proof.
  intros Hk Hfail Hgood r. subst r. unfold Download.download_file.
  destruct (attempts_until_fetched answers url dest retries backoff verbose
              (Z.to_nat retries) 1 k 1) as (H1 & H2 & H3 & H4);
    [lia | rewrite Z2Nat.id; lia | exact Hfail | exact Hgood |].
  replace (k - 1 + 1) with k in H2 by lia. auto.
Qed.

Lemma download_stops_at_first_fetched_witness :
  let answers := fun n : nat =>
    if Nat.leb n 2 then Download.Refused "HTTP Error 404" else Download.Fetched in
  Download.download_file answers "http://printer/A.mp4" "out/A.mp4" 5 (3 # 2) true =
    (true,
     [ Stdout (LAttempt 1 "http://printer/A.mp4" "out/A.mp4");
       UrlOpen "http://printer/A.mp4"; Slept 1;
       Stdout (LAttempt 2 "http://printer/A.mp4" "out/A.mp4");
       UrlOpen "http://printer/A.mp4"; Slept (3 # 2);
       Stdout (LAttempt 3 "http://printer/A.mp4" "out/A.mp4");
       UrlOpen "http://printer/A.mp4"; OpenWrite "out/A.mp4"; Stdout LSuccess ]) /\
  fst (Download.download_file answers "http://printer/A.mp4" "out/A.mp4" 5 (3 # 2) true) = true.
Proof.
  intros answers. split; [vm_compute; reflexivity |].
  apply (download_stops_at_first_fetched answers "http://printer/A.mp4" "out/A.mp4"
           5 (3 # 2) true 3).
  - lia.
  - intros j Hj. assert (E : j = 1 \/ j = 2) by lia. destruct E as [-> | ->]; discriminate.
  - reflexivity.
Defined.

(** X11.  The downloader opens the destination only for an attempt that
    got past opening the URL: when every attempt of the budget is refused,
    the destination is never opened, so a file that was there before is
    left as it was, and all the call does is open the URL, sleep and print
    its own lines. *)
Theorem refused_download_leaves_file_alone
    (answers : nat -> Download.attempt) (url dest : string)
    (retries : Z) (backoff : Q) (verbose : bool) :
  (forall j, 1 <= j <= retries -> exists c, answers (Z.to_nat j) = Download.Refused c) ->
  let fx := snd (Download.download_file answers url dest retries backoff verbose) in
  filter is_open_write fx = [] /\
  Forall (fun e => is_download e = true) fx.
Proof.
  intros Href fx. subst fx. unfold Download.download_file. split.
  - destruct (Z_le_gt_dec 0 retries) as [Hr | Hr].
    + apply attempts_refused; [rewrite Z2Nat.id; lia | exact Href].
    + replace (Z.to_nat retries) with 0%nat by lia. reflexivity.
  - eapply Forall_impl; [| apply attempts_effects]. now intros e [H _].
Qed.

Lemma refused_download_leaves_file_alone_witness :
  filter is_open_write
    (snd (Download.download_file (fun _ => Download.Refused "timed out")
            "http://printer/A.mp4" "out/A.mp4" 5 (3 # 2) false)) = [].
Proof.
  apply (refused_download_leaves_file_alone (fun _ => Download.Refused "timed out")
           "http://printer/A.mp4" "out/A.mp4" 5 (3 # 2) false).
  intros j _. now exists "timed out".
Defined.

(** ** What a run prints, sends and touches *)

Section RunEffects.
Import Json Push Watch App.
Local Open Scope list_scope.
Local Arguments Z.mul : simpl never.

Lemma on_message_from_watch (verbose : bool) (target : string) (m : inbound) :
  forallb from_watch (fst (on_message verbose target m)) = true.
Proof.
  destruct m as [| data]; [reflexivity |]. unfold on_message.
  destruct (get (or_dict data) "Data") as [d0|]; [| reflexivity]. cbv zeta.
  destruct (get (or_dict d0) "Cmd") as [cmd|]; [| reflexivity].
  destruct (eq_int cmd 323); [| reflexivity].
  destruct (get (or_dict d0) "Data") as [dd|]; [| reflexivity].
  destruct (get (or_dict dd) "Url") as [u|]; [| reflexivity].
  destruct (first_or_none (or_list u)) as [got|]; [| reflexivity].
  destruct (eq_str got target), verbose, (truthy got); reflexivity.
Qed.

Lemma step_from_watch (verbose : bool) (target : string) (max_wait : Z)
    (st : state) (now : Z) (ev : event) :
  forallb from_watch (shown st) = true ->
  forallb from_watch (shown (step verbose target max_wait st now ev)) = true.
Proof.
  intros Hq. destruct ev as [r | found | sent]; simpl.
  - unfold ws_waiter_turn. destruct (tws st); auto. destruct (ws_ready st); auto.
    destruct r as [| | m]; simpl; auto.
    + rewrite forallb_app, Hq. now destruct verbose.
    + pose proof (on_message_from_watch verbose target m) as Hm.
      destruct (on_message verbose target m) as [out v]. simpl in Hm.
      destruct v; simpl; now rewrite forallb_app, Hq, Hm.
  - unfold http_waiter_turn. destruct (thttp st); auto.
    destruct ((now <? 1000 * max_wait) && negb (http_ready st)); auto.
    destruct found; auto.
  - unfold keepalive_turn. destruct (ka st); auto. destruct sent; simpl; auto.
    now rewrite forallb_app, Hq.
Qed.

Lemma wait_from_watch (verbose : bool) (target : string) (max_wait : Z)
    (trace : list (Z * event)) (st : state) :
  forallb from_watch (shown st) = true ->
  forallb from_watch (shown (fst (wait verbose target max_wait st trace))) = true.
Proof.
  revert st. induction trace as [|[now ev] trace IH]; intros st Hq; simpl; auto.
  destruct (1000 * max_wait <=? now); simpl; auto.
  pose proof (step_from_watch verbose target max_wait st now ev Hq) as Hq'.
  destruct (done (tws _) || done (thttp _)); simpl; [auto |].
  now apply IH.
Qed.

(** The effects of [run], laid out. *)
Lemma run_effects (w : world) (host target : string) (check : bool) (max_wait : Z)
    (verbose : bool) (download_dir : string) (url_only : bool) :
  let st0 := fst (wait verbose target max_wait initial (trace w)) in
  let url := http_url_of host target in
  let dest := Path.join download_dir (Path.basename target) in
  let dl := Download.download_file (answers w) url dest
              Download.default_retries Download.default_backoff verbose in
  effects (run w host target check max_wait verbose download_dir url_only) =
  [ SentExport (make_export_cmd target (request_id w) (now_ms w));
    Stdout (LExportRequested target) ] ++
  shown st0 ++
  (if ws_ready st0 || http_ready st0 then
     [Stdout (LReady url)] ++
     when (check && negb (http_ready st0) && negb (post_probe w)) [Stdout LHeadsUp] ++
     (if url_only then [Stdout (LDownloadUrl url)]
      else [MakeDirs download_dir] ++ snd dl ++
           [if fst dl then Stdout (LSaved dest) else Stderr (LDownloadFailed url)])
   else [Stderr (LTimedOut max_wait target)]).
Proof.
  intros st0 url dest dl. subst st0 dl url dest. unfold run.
  destruct (wait verbose target max_wait initial (trace w)) as [st0 at_ms].
  cbv zeta. unfold cancel_watchers. cbn [fst ws_ready http_ready shown].
  destruct (Download.download_file (answers w) (http_url_of host target)
              (Path.join download_dir (Path.basename target))
              Download.default_retries Download.default_backoff verbose) as [success dl].
  cbn [fst snd].
  destruct (ws_ready st0), (http_ready st0), check, (post_probe w), url_only, success;
    cbn; rewrite <- ?app_assoc; reflexivity.
Qed.

End RunEffects.

Section RunReach.
Import Json Push Watch App.
Local Open Scope list_scope.

Lemma from_watch_is_harmless (l : list effect) :
  forallb from_watch l = true ->
  Forall (fun e => touches_fs e = false /\ is_sent_export e = false /\ not_heads_up e = true) l.
Proof.
  induction l as [|e l IH]; simpl; intros H; constructor.
  - apply andb_true_iff in H as [He _].
    destruct e as [[]|[]| | | | | |]; simpl in He; try discriminate; auto.
  - apply andb_true_iff in H as [_ Hl]. auto.
Qed.

Lemma basename_from_plain (acc s : string) :
  (exists u, acc = (u ++ s)%string /\ Str.all (Chars.not_char "/") u = true) ->
  Str.all (Chars.not_char "/") (Path.basename_from acc s) = true.
Proof.
  revert acc. induction s as [|c s IH]; intros acc (u & -> & Hu);
    cbn [Path.basename_from].
  - now rewrite append_nil_r.
  - destruct (Chars.is_char "/" c) eqn:C.
    + apply IH. exists ""%string. now split.
    + apply IH. exists (u ++ String c "")%string. split.
      * now rewrite append_assoc.
      * rewrite all_append, Hu. cbn [Str.all andb]. unfold Chars.not_char.
        unfold Chars.is_char in C. now rewrite C.
Qed.

Lemma basename_plain (p : string) :
  Str.all (Chars.not_char "/") (Path.basename p) = true.
Proof. apply basename_from_plain. exists ""%string. now split. Qed.

Lemma plain_not_absolute (s : string) :
  Str.all (Chars.not_char "/") s = true -> Str.startswith "/" s = false.
Proof.
  destruct s as [|c s]; [reflexivity |]. cbn [Str.all Str.startswith].
  unfold Chars.not_char. intros H. apply andb_true_iff in H as [H _].
  apply negb_true_iff in H. now rewrite H.
Qed.

End RunReach.

(** X12.  A run touches the local file system in two places only: it makes
    the download directory, and it opens for writing the file named after
    the last component of the target path, directly inside that directory.
    Nothing else is created, whatever the watch and the download do. *)
Theorem run_touches_only_its_destination
    (w : App.world) (host target : string) (check : bool) (max_wait : Z)
    (verbose : bool) (download_dir : string) (url_only : bool) :
  let name := Path.basename target in
  let dest := Path.join download_dir name in
  Str.all (Chars.not_char "/") name = true /\
  (dest = (download_dir ++ name)%string \/ dest = (download_dir ++ "/" ++ name)%string) /\
  Forall (fun e => touches_fs e = true -> e = MakeDirs download_dir \/ e = OpenWrite dest)
         (App.effects (App.run w host target check max_wait verbose download_dir url_only)).
Proof.
  intros name dest. split; [apply basename_plain |]. split.
  - subst dest. unfold Path.join.
    rewrite (plain_not_absolute name (basename_plain target)).
    destruct (negb (Str.nonempty download_dir) || Str.endswith "/" download_dir); auto.
  - rewrite run_effects. cbv zeta.
    pose proof (wait_from_watch verbose target max_wait (App.trace w) Watch.initial eq_refl)
      as Hw. apply from_watch_is_harmless in Hw.
    repeat (apply Forall_app; split).
    + repeat constructor; discriminate.
    + eapply Forall_impl; [| exact Hw]. intros e (H & _) T. congruence.
    + destruct (Watch.ws_ready _ || Watch.http_ready _); [| repeat constructor; discriminate].
      repeat (apply Forall_app; split).
      * repeat constructor; discriminate.
      * destruct (check && _ && _); repeat constructor; discriminate.
      * destruct url_only; [repeat constructor; discriminate |].
        repeat (apply Forall_app; split).
        -- repeat constructor.
        -- eapply Forall_impl; [| apply attempts_effects].
           intros e [D H] T. right. apply H. destruct e; simpl in *; congruence.
        -- destruct (fst (Download.download_file _ _ _ _ _ _));
             repeat constructor; discriminate.
Qed.

(** X13.  The export request is sent once, and only once a target is
    known.  Of everything [main] does, exactly one effect is the export
    message when a target was determined - the command 323 with that
    path - and none is when [main] stops on a usage error or on a listing
    it cannot resolve. *)
Theorem export_is_sent_once
    (urljoin : string -> string -> string) (gmtime_ok : Z -> bool)
    (a : App.args) (page : App.fetch) (w : App.world) :
  filter is_sent_export (fst (App.main urljoin gmtime_ok a page w)) =
  match App.target_of urljoin gmtime_ok a page with
  | Some target =>
      [SentExport (Push.make_export_cmd target (App.request_id w) (App.now_ms w))]
  | None => []
  end.
Proof.
  assert (Hrun : forall target,
             filter is_sent_export
               (App.effects (App.run w (App.host a) target (App.check a) (App.timeout a)
                               (App.verbose a) (App.out_dir a) (App.url_only a)))
             = [SentExport (Push.make_export_cmd target (App.request_id w) (App.now_ms w))]).
  { intros target. rewrite run_effects. cbv zeta.
    pose proof (wait_from_watch (App.verbose a) target (App.timeout a) (App.trace w)
                  Watch.initial eq_refl) as Hw.
    apply from_watch_is_harmless in Hw.
    assert (Hnone : forall l, Forall (fun e => is_sent_export e = false) l ->
                              filter is_sent_export l = []).
    { induction l as [|e l IH]; intros H; [reflexivity |].
      inversion H; subst. simpl. rewrite H2. auto. }
    cbn [app filter is_sent_export]. f_equal.
    rewrite filter_app, (Hnone (Watch.shown _)); cbn [app].
    2: { eapply Forall_impl; [| exact Hw]. now intros e (_ & H & _). }
    apply Hnone.
    destruct (Watch.ws_ready _ || Watch.http_ready _); [| repeat constructor].
    constructor; [reflexivity |]. apply Forall_app; split.
    - destruct (App.check a && _ && _); repeat constructor.
    - destruct (App.url_only a); [repeat constructor |].
      constructor; [reflexivity |]. apply Forall_app; split.
      + eapply Forall_impl; [| apply attempts_effects]. intros e [H _]. now destruct e.
      + destruct (fst (Download.download_file _ _ _ _ _ _)); repeat constructor. }
  unfold App.main, App.target_of.
  destruct (App.latest a).
  - unfold App.find_latest_mp4_path. destruct page as [html | c].
    + destruct (Listing.parse_latest_from_listing html) as [l|].
      * destruct (App.verbose a) eqn:V; [destruct (gmtime_ok (Listing.modified l)) |];
          cbn [fst snd Push.when]; rewrite ?V, ?filter_app, ?Hrun; reflexivity.
      * destruct (App.verbose a); reflexivity.
    + destruct (App.verbose a); reflexivity.
  - destruct (App.no_file (App.file a)); [reflexivity |]. cbn [fst]. apply Hrun.
Qed.

(** X14.  The probe after the watch only annotates.  Whether it finds the
    file or not changes neither the way the run ends nor anything the run
    prints, sends or writes, except for the heads-up line; and without
    [--check] it changes nothing at all. *)
Theorem post_hoc_probe_only_annotates
    (w : App.world) (host target : string) (check : bool) (max_wait : Z)
    (verbose : bool) (download_dir : string) (url_only : bool) (other : bool) :
  let w' := App.mkWorld (App.request_id w) (App.now_ms w) (App.trace w) other
                        (App.answers w) in
  let r := App.run w host target check max_wait verbose download_dir url_only in
  let r' := App.run w' host target check max_wait verbose download_dir url_only in
  App.ended r = App.ended r' /\
  App.waited_ms r = App.waited_ms r' /\
  filter not_heads_up (App.effects r) = filter not_heads_up (App.effects r') /\
  (check = false -> App.effects r = App.effects r').
Proof.
  intros w' r r'. subst r r' w'.
  rewrite !run_ending, !run_waited, !run_effects. cbv zeta.
  cbn [App.trace App.answers App.request_id App.now_ms App.post_probe].
  split; [reflexivity |]. split; [reflexivity |]. split.
  - rewrite !filter_app. f_equal. f_equal.
    destruct (Watch.ws_ready _ || Watch.http_ready _); [| reflexivity].
    rewrite !filter_app. f_equal. f_equal.
    destruct (check && _ && negb (App.post_probe w)), (check && _ && negb other);
      reflexivity.
  - intros ->. reflexivity.
Qed.

(** ** The listing, row by row *)

Section RowFacts.
Import Re Listing.
Local Open Scope regex_scope.

Lemma finditer_from_hit (r : regex) (s : string) (prev : option ascii) (skip : nat) (h : hit) :
  In h (finditer_from r prev s skip) -> exists prev' s', In h (exec r prev' s').
Proof.
  revert prev skip. induction s as [|c s IH]; intros prev skip H.
  - destruct skip; simpl in H; [| contradiction].
    destruct (exec r prev "") as [|h0 l] eqn:E; [contradiction |].
    destruct H as [<- | []]. exists prev, "". rewrite E. now left.
  - destruct skip; cbn [finditer_from] in H; [| eapply IH, H].
    destruct (exec r prev (String c s)) as [|h0 l] eqn:E; [eapply IH, H |].
    destruct H as [<- | H]; [| eapply IH, H].
    exists prev, (String c s). rewrite E. now left.
Qed.

(** A sign, if any, and then digits: what the first group of [td_name_re]
    captures. *)
Lemma signed_digits_hit (prev : option ascii) (s : string) (g : hit) :
  In g (exec (Opt (Lit "-") >> PlusG Chars.is_digit) prev s) ->
  groups g = [] /\
  exists sign ds,
    taken g = sign ++ ds /\ ds <> "" /\ Str.all Chars.is_digit ds = true /\
    (sign = "" \/ exists x, sign = String x "" /\ Chars.eq_ci "-" x = true).
Proof.
  intros H. apply cat_hit in H as (a & b & Ha & Hb & ->).
  apply plus_g_hit in Hb as (Gb & _ & Hall & Hne).
  assert (Hsign : groups a = [] /\
                  (taken a = "" \/ exists x, taken a = String x "" /\ Chars.eq_ci "-" x = true)).
  { cbn [exec] in Ha. apply in_app_or in Ha as [Ha | [<- | []]]; [| now split; [| left]].
    destruct s as [|x s]; simpl in Ha; [contradiction |].
    destruct (Chars.eq_ci "-" x) eqn:E; [| contradiction].
    destruct Ha as [<- | []]. split; [reflexivity |]. right. now exists x. }
  destruct Hsign as [Ga Hsign]. simpl. rewrite Ga, Gb. split; [reflexivity |].
  exists (taken a), (taken b). auto.
Qed.

Lemma int_re_accepts (sign ds : string) :
  ds <> "" -> Str.all Chars.is_digit ds = true ->
  (sign = "" \/ exists x, sign = String x "" /\ Chars.eq_ci "-" x = true) ->
  is_match (match_ int_re (sign ++ ds)) = true.
Proof.
  intros Hne Hall Hsign. unfold match_, int_re.
  assert (Hdigits : forall prev, exec (PlusG Chars.is_digit >> Eos) prev ds <> []).
  { intros prev. apply cat_matches with (h1 := mkHit ds "" []).
    - rewrite <- (append_nil_r ds) at 2. now apply plus_g_complete.
    - simpl. discriminate. }
  assert (Hall' : exec (Opt (Lit "-") >> PlusG Chars.is_digit >> Eos) None (sign ++ ds) <> []).
  { destruct Hsign as [-> | (x & -> & Hx)].
    - apply cat_matches with (h1 := nothing ds); [| apply Hdigits].
      cbn [exec]. apply in_or_app. right. now left.
    - apply cat_matches with (h1 := push x (nothing ds)); [| apply Hdigits].
      cbn [exec]. apply in_or_app. left. simpl. rewrite Hx. now left. }
  destruct (exec _ None (sign ++ ds)); [contradiction | reflexivity].
Qed.

Lemma td_name_re_number (prev : option ascii) (s : string) (h : hit) :
  In h (exec td_name_re prev s) ->
  is_match (match_ int_re (group 1 (groups h))) = true.
Proof.
  unfold td_name_re. intros H.
  apply cat_hit in H as (h1 & x1 & H1 & H & ->). apply lit_hit in H1 as (G1 & _).
  apply cat_hit in H as (h2 & x2 & H2 & H & ->). apply star_g_hit in H2 as (G2 & _).
  apply cat_hit in H as (h3 & x3 & H3 & H & ->).
  assert (G3 : groups h3 = []).
  { simpl in H3. destruct (xorb _ _); [| contradiction]. now destruct H3 as [<- | []]. }
  apply cat_hit in H as (h4 & x4 & H4 & H & ->). apply lit_hit in H4 as (G4 & _).
  apply cat_hit in H as (h5 & x5 & H5 & H & ->). apply star_g_hit in H5 as (G5 & _).
  apply cat_hit in H as (h6 & x6 & H6 & H & ->). apply lit_hit in H6 as (G6 & _).
  apply cat_hit in H as (h7 & x7 & H7 & H & ->). apply star_g_hit in H7 as (G7 & _).
  apply cat_hit in H as (h8 & x8 & H8 & H & ->).
  assert (G8 : groups h8 = []).
  { cbn [exec] in H8. apply in_app_or in H8 as [H8 | [<- | []]]; [| reflexivity].
    now apply lit_hit in H8. }
  apply cat_hit in H as (h9 & x9 & H9 & _ & ->).
  cbn [exec] in H9. apply in_map_iff in H9 as (g & <- & Hg).
  apply (signed_digits_hit None) in Hg as (Gg & sign & ds & Ht & Hne & Hall & Hsign).
  cbn [glue groups]. rewrite G1, G2, G3, G4, G5, G6, G7, G8. cbn. rewrite Ht.
  now apply int_re_accepts.
Qed.

End RowFacts.

(** X15.  The digit test of [td_vals] never rejects anything: whatever the
    row, every value the cell pattern captures already is an optional sign
    followed by digits, so the list of ordinals is the list of all captures,
    read as integers, in the order of the row. *)
Theorem td_vals_keeps_every_capture (row : string) :
  Listing.td_vals row = map Str.to_int (Re.findall Listing.td_name_re row) /\
  forall n, In n (Re.findall Listing.td_name_re row) ->
            Listing.is_match (Re.match_ Listing.int_re n) = true.
Proof.
  assert (H : forall n, In n (Re.findall Listing.td_name_re row) ->
                        Listing.is_match (Re.match_ Listing.int_re n) = true).
  { intros n Hn. unfold Re.findall in Hn. apply in_map_iff in Hn as (h & <- & Hh).
    unfold Re.finditer in Hh. apply finditer_from_hit in Hh as (prev & s & Hin).
    eapply td_name_re_number, Hin. }
  split; [| exact H]. unfold Listing.td_vals. f_equal.
  induction (Re.findall Listing.td_name_re row) as [|n l IH]; [reflexivity |].
  simpl. rewrite (H n (or_introl eq_refl)). f_equal. apply IH.
  intros n' Hn'. apply H. now right.
Qed.

(** ** Which messages end the push watcher *)

Section MessageShapes.
Import Json Push.
Local Open Scope list_scope.
Local Arguments String.eqb : simpl never.

Lemma get_keyed (v : value) (k : string) :
  get (or_dict v) k = if keyed v then Some (field v k) else None.
Proof.
  unfold or_dict. destruct v as [| b | z | x | | s | items | items]; simpl; try reflexivity.
  - now destruct b.
  - now destruct (z =? 0).
  - now destruct (Qeq_bool x 0).
  - now destruct s.
  - now destruct items.
  - now destruct items.
Qed.

Lemma first_listed (u : value) :
  first_or_none (or_list u) =
  if listed u then
    Some match u with
         | Arr (x :: _) => x
         | Str (String c _) => Str (String c "")
         | _ => Null
         end
  else None.
Proof.
  unfold or_list, first_or_none.
  destruct u as [| b | z | x | | s | items | items]; simpl; try reflexivity.
  - now destruct b.
  - destruct (z =? 0) eqn:Z0; simpl; [reflexivity | now rewrite Z0].
  - destruct (Qeq_bool x 0) eqn:Q0; simpl; [reflexivity | now rewrite Q0].
  - now destruct s.
  - now destruct items.
  - now destruct items.
Qed.

Lemma field_unkeyed (v : value) (k : string) : keyed v = false -> field v k = Null.
Proof. destruct v; simpl; congruence. Qed.


(** X16.  What one inbound document does to the push watcher depends on its
    shape alone.  The watcher ends with an uncaught exception exactly when
    the document is not well shaped: the document or its [Data] is a truthy
    value that is no object, or, under the command code 323, [Data.Data] is
    one, or [Url] is truthy and neither a list nor a string.  It confirms
    exactly when the code is 323 and the first element of [Url] is the
    target path; every other document is passed over.  A text that is not
    JSON is always passed over. *)
Theorem message_verdicts (verbose : bool) (target : string) (data : Json.value) :
  let v := snd (Push.on_message verbose target (Push.Doc data)) in
  (v = Push.Crashed <-> Push.well_shaped data = false) /\
  (v = Push.Confirmed <-> Push.carried_first data = Some (Json.Str target)) /\
  snd (Push.on_message verbose target Push.NotJson) = Push.Continue.
Proof.
  cbv zeta. split; [| split; [| reflexivity]];
    unfold Push.on_message, Push.well_shaped, Push.carried_first, Push.is_confirmation;
    rewrite get_keyed; cbv zeta.
  - destruct (Push.keyed data) eqn:K0; simpl; [| now split].
    set (d0 := Push.field data "Data").
    rewrite !get_keyed. destruct (Push.keyed d0) eqn:K1; simpl; [| now split].
    destruct (Json.eq_int (Push.field d0 "Cmd") 323); simpl; [| split; discriminate].
    set (dd := Push.field d0 "Data").
    rewrite get_keyed. destruct (Push.keyed dd) eqn:K2; simpl; [| now split].
    rewrite first_listed. destruct (Push.listed (Push.field dd "Url")); simpl; [| now split].
    destruct (Json.eq_str _ target); simpl; split; discriminate.
  - destruct (Push.keyed data) eqn:K0; simpl.
    + set (d0 := Push.field data "Data").
      rewrite !get_keyed. destruct (Push.keyed d0) eqn:K1; simpl.
      * destruct (Json.eq_int (Push.field d0 "Cmd") 323); simpl; [| split; discriminate].
        set (dd := Push.field d0 "Data").
        rewrite get_keyed. destruct (Push.keyed dd) eqn:K2; simpl.
        -- rewrite first_listed.
           destruct (Push.field dd "Url") as [| b | z | x | | s | items | items] eqn:U; simpl;
             try (split; discriminate).
           ++ destruct b; simpl; split; discriminate.
           ++ destruct (z =? 0); simpl; split; discriminate.
           ++ destruct (Qeq_bool x 0); simpl; split; discriminate.
           ++ destruct s as [|c s]; simpl; [split; discriminate |].
              destruct (String.eqb (String c "") target) eqn:E; simpl.
              ** apply String.eqb_eq in E. rewrite E. split; reflexivity.
              ** split; [discriminate |]. intros H. injection H as H.
                 rewrite H, String.eqb_refl in E. discriminate.
           ++ destruct items as [|x items]; simpl; [split; discriminate |].
              destruct (Json.eq_str x target) eqn:E; simpl.
              ** destruct x; simpl in E; try discriminate.
                 apply String.eqb_eq in E. rewrite E. split; reflexivity.
              ** split; [discriminate |]. intros H. injection H as ->.
                 simpl in E. rewrite String.eqb_refl in E. discriminate.
           ++ destruct items; simpl; split; discriminate.
        -- rewrite (field_unkeyed dd "Url" K2). split; discriminate.
      * rewrite (field_unkeyed d0 "Cmd" K1). simpl. split; discriminate.
    + rewrite (field_unkeyed data "Data" K0). simpl. split; discriminate.
Qed.

End MessageShapes.

(** ** Verbose mode *)

Section VerboseFacts.
Import Json Push Watch App.
Local Open Scope list_scope.
Local Arguments Z.mul : simpl never.

(** Two states that differ at most in the verbose lines recorded. *)
Let alike (st1 st2 : state) : Prop :=
  ws_ready st1 = ws_ready st2 /\ http_ready st1 = http_ready st2 /\
  tws st1 = tws st2 /\ thttp st1 = thttp st2 /\ ka st1 = ka st2 /\
  delay st1 = delay st2 /\ filter always_shown (shown st1) = shown st2.

Lemma on_message_loud (target : string) (m : inbound) :
  snd (on_message true target m) = snd (on_message false target m) /\
  filter always_shown (fst (on_message true target m)) = [] /\
  fst (on_message false target m) = [].
Proof.
  destruct m as [| data]; [now repeat split |]. unfold on_message.
  destruct (get (or_dict data) "Data") as [d0|]; [| now repeat split]. cbv zeta.
  destruct (get (or_dict d0) "Cmd") as [cmd|]; [| now repeat split].
  destruct (eq_int cmd 323); [| now repeat split].
  destruct (get (or_dict d0) "Data") as [dd|]; [| now repeat split].
  destruct (get (or_dict dd) "Url") as [u|]; [| now repeat split].
  destruct (first_or_none (or_list u)) as [got|]; [| now repeat split].
  destruct (eq_str got target), (truthy got); now repeat split.
Qed.

Lemma step_loud (target : string) (max_wait : Z) (st1 st2 : state) (now : Z) (ev : event) :
  alike st1 st2 ->
  alike (step true target max_wait st1 now ev) (step false target max_wait st2 now ev).
Proof.
  intros (A & B & C & D & K & E & F). unfold alike.
  destruct ev as [r | found | sent]; simpl.
  - unfold ws_waiter_turn. rewrite <- A, <- C.
    destruct (tws st1) eqn:T; try (repeat split; congruence).
    destruct (ws_ready st1) eqn:W; [simpl; repeat split; congruence |].
    destruct r as [| | m].
    + repeat split; congruence.
    + simpl. rewrite filter_app, F. simpl. repeat split; congruence.
    + destruct (on_message_loud target m) as (Hv & Hout & Hnone).
      destruct (on_message true target m) as [out v].
      destruct (on_message false target m) as [out' v'].
      simpl in Hv, Hout, Hnone. subst v' out'.
      destruct v; simpl; rewrite filter_app, F, Hout; repeat split; congruence.
  - unfold http_waiter_turn. rewrite <- B, <- D.
    destruct (thttp st1) eqn:T; try (repeat split; congruence).
    destruct ((now <? 1000 * max_wait) && negb (http_ready st1)); [destruct found |];
      simpl; repeat split; congruence.
  - unfold keepalive_turn. rewrite <- K.
    destruct (ka st1) eqn:T; try (repeat split; congruence).
    destruct sent; simpl; repeat split; try congruence.
    rewrite filter_app, F. reflexivity.
Qed.

Lemma wait_loud (target : string) (max_wait : Z) (trace : list (Z * event))
    (st1 st2 : state) :
  alike st1 st2 ->
  alike (fst (wait true target max_wait st1 trace))
        (fst (wait false target max_wait st2 trace)) /\
  snd (wait true target max_wait st1 trace) = snd (wait false target max_wait st2 trace).
Proof.
  revert st1 st2. induction trace as [|[now ev] trace IH]; intros st1 st2 Ha.
  - simpl. auto.
  - cbn [wait]. destruct (1000 * max_wait <=? now); [simpl; auto |].
    pose proof (step_loud target max_wait st1 st2 now ev Ha) as Ha'.
    destruct Ha' as (A & B & C & D & K & E & F). rewrite <- C, <- D.
    destruct (done (tws (step true target max_wait st1 now ev))
              || done (thttp (step true target max_wait st1 now ev))).
    + simpl. repeat split; auto.
    + apply IH. repeat split; auto.
Qed.

Lemma attempts_loud (answers : nat -> Download.attempt) (url dest : string)
    (retries : Z) (backoff : Q) (todo : nat) (n : Z) (w : Q) :
  fst (Download.attempts answers url dest retries backoff true todo n w)
  = fst (Download.attempts answers url dest retries backoff false todo n w) /\
  filter always_shown (snd (Download.attempts answers url dest retries backoff true todo n w))
  = snd (Download.attempts answers url dest retries backoff false todo n w).
Proof.
  revert n w. induction todo as [|todo IH]; intros n w; [now split |].
  rewrite !attempts_turn. cbv zeta.
  specialize (IH (n + 1) (Qmin (w * backoff) Download.ceiling)). destruct IH as [IH1 IH2].
  destruct (answers (Z.to_nat n)) as [| e | e]; cbn [Download.cause_of];
    [now split | |]; destruct (n =? retries); cbn [fst snd]; (split; [auto |]);
    cbn; rewrite ?IH2; reflexivity.
Qed.

Lemma run_final (w : world) (host target : string) (check : bool) (max_wait : Z)
    (verbose : bool) (download_dir : string) (url_only : bool) :
  let st0 := fst (wait verbose target max_wait initial (trace w)) in
  let st := final (run w host target check max_wait verbose download_dir url_only) in
  ws_ready st = ws_ready st0 /\
  http_ready st = http_ready st0
                  || (ws_ready st0 && check && post_probe w) /\
  tws st = cancel (tws st0) /\ thttp st = cancel (thttp st0) /\
  ka st = cancel (ka st0) /\ delay st = delay st0 /\ shown st = shown st0.
Proof.
  cbv zeta. unfold run.
  destruct (wait verbose target max_wait initial (trace w)) as [st0 at_ms].
  cbv zeta. unfold cancel_watchers. cbn [fst ws_ready http_ready shown].
  destruct (Download.download_file (answers w) (http_url_of host target)
              (Path.join download_dir (Path.basename target))
              Download.default_retries Download.default_backoff verbose) as [success dl].
  destruct (ws_ready st0), (http_ready st0), check, (post_probe w), url_only, success;
    cbn; repeat split; reflexivity.
Qed.

(** X17.  The verbose flag of [run] adds lines and changes nothing else:
    with and without it the run ends the same way, at the same moment, with
    the same flags and the same fate of its three tasks, and what the
    verbose run prints, sends and writes is, once its verbose lines are
    left out, what the other run prints, sends and writes, in the same
    order. *)
Theorem verbose_only_adds_lines
    (w : world) (host target : string) (check : bool) (max_wait : Z)
    (download_dir : string) (url_only : bool) :
  let loud := run w host target check max_wait true download_dir url_only in
  let calm := run w host target check max_wait false download_dir url_only in
  ended loud = ended calm /\
  waited_ms loud = waited_ms calm /\
  ws_ready (final loud) = ws_ready (final calm) /\
  http_ready (final loud) = http_ready (final calm) /\
  tws (final loud) = tws (final calm) /\
  thttp (final loud) = thttp (final calm) /\
  ka (final loud) = ka (final calm) /\
  filter always_shown (effects loud) = effects calm.
Proof.
  cbv zeta.
  assert (H0 : alike initial initial) by (repeat split).
  destruct (wait_loud target max_wait (trace w) initial initial H0)
    as [(A & B & C & D & K & E & F) Hat].
  destruct (attempts_loud (answers w) (http_url_of host target)
              (Path.join download_dir (Path.basename target))
              Download.default_retries Download.default_backoff
              (Z.to_nat Download.default_retries) 1 1) as [D1 D2].
  fold (Download.download_file (answers w) (http_url_of host target)
          (Path.join download_dir (Path.basename target))
          Download.default_retries Download.default_backoff true) in D1, D2.
  fold (Download.download_file (answers w) (http_url_of host target)
          (Path.join download_dir (Path.basename target))
          Download.default_retries Download.default_backoff false) in D1, D2.
  pose proof (run_final w host target check max_wait true download_dir url_only) as L.
  pose proof (run_final w host target check max_wait false download_dir url_only) as R.
  cbv zeta in L, R.
  destruct L as (L1 & L2 & L3 & L4 & L5 & _), R as (R1 & R2 & R3 & R4 & R5 & _).
  rewrite !run_ending, !run_waited, !run_effects. cbv zeta.
  rewrite L1, L2, L3, L4, L5, R1, R2, R3, R4, R5. unfold outcome.
  rewrite <- A, <- B, <- C, <- D, <- K, <- D1, Hat.
  repeat (split; [reflexivity |]).
  rewrite !filter_app, F. cbn [filter always_shown only_verbose negb]. f_equal. f_equal.
  destruct (ws_ready _ || http_ready _); [| reflexivity].
  rewrite !filter_app. cbn [filter always_shown only_verbose negb app]. f_equal.
  f_equal.
  { destruct (check && _ && _); reflexivity. }
  destruct url_only; [reflexivity |].
  cbn [filter always_shown only_verbose negb]. f_equal.
  rewrite filter_app, D2. f_equal.
  destruct (fst (Download.download_file _ _ _ _ _ _)); reflexivity.
Qed.

End VerboseFacts.

(** ** A listing without rows *)

Section EmptyListing.
Import Re Listing.
Local Open Scope regex_scope.

Lemma finditer_from_nowhere (r : regex) (t : string) :
  (forall prev s, exec r prev s <> [] -> Str.contains_ci t s = true) ->
  forall s prev skip, Str.contains_ci t s = false -> finditer_from r prev s skip = [].
Proof.
  intros Hr. induction s as [|c s IH]; intros prev skip H.
  - destruct skip; [| reflexivity]. cbn [finditer_from].
    destruct (exec r prev "") as [|h l] eqn:E; [reflexivity |].
    rewrite (Hr prev "") in H; [discriminate | rewrite E; discriminate].
  - assert (Hs : Str.contains_ci t s = false).
    { simpl in H. now apply orb_false_iff in H as [_ H]. }
    destruct skip; cbn [finditer_from]; [| now apply IH].
    destruct (exec r prev (String c s)) as [|h l] eqn:E; [now apply IH |].
    rewrite (Hr prev (String c s)) in H; [discriminate | rewrite E; discriminate].
Qed.

Lemma nonempty_has (A : Type) (l : list A) : l <> [] -> exists x, In x l.
Proof. destruct l as [|x l]; [congruence |]. exists x. now left. Qed.

Lemma row_re_opens (prev : option ascii) (s : string) :
  exec row_re prev s <> [] -> Str.contains_ci "<tr" s = true.
Proof.
  intros H. apply nonempty_has in H as [h H]. unfold row_re in H.
  apply cat_hit in H as (h1 & x1 & H1 & _ & _).
  apply lit_hit in H1 as (_ & _ & H1).
  apply (contains_ci_found "<tr" "" s H1).
Qed.

Lemma row_re_closes (prev : option ascii) (s : string) :
  exec row_re prev s <> [] -> Str.contains_ci "</tr>" s = true.
Proof.
  intros H. apply nonempty_has in H as [h H]. unfold row_re in H.
  apply cat_hit in H as (h1 & x1 & H1 & H & _). apply exec_split in H1.
  apply cat_hit in H as (h2 & x2 & H2 & H & _). apply exec_split in H2.
  apply cat_hit in H as (h3 & x3 & H3 & H & _). apply exec_split in H3.
  apply cat_hit in H as (h4 & x4 & H4 & H & _). apply exec_split in H4.
  apply cat_hit in H as (h5 & x5 & H5 & H & _). apply exec_split in H5.
  apply lit_hit in H as (_ & _ & H).
  rewrite H1, H2, H3, H4, H5, <- !append_assoc.
  now apply contains_ci_found.
Qed.

End EmptyListing.

(** X18.  A page in which no table row opens, or none closes, has nothing
    to resolve: the parser returns no entry, and [main] with [--latest]
    reports that it found no entries and leaves with status 1 before any
    connection is made or anything is sent. *)
Theorem listing_without_rows_resolves_nothing
    (urljoin : string -> string -> string) (gmtime_ok : Z -> bool)
    (a : App.args) (html : string) (w : App.world) :
  Str.contains_ci "<tr" html = false \/ Str.contains_ci "</tr>" html = false ->
  App.latest a = true ->
  Listing.parse_latest_from_listing html = None /\
  App.main urljoin gmtime_ok a (App.Page html) w =
    ((Push.when (App.verbose a)
        [Stdout (LFetching (urljoin ("http://" ++ App.host a)%string
                                    (Path.with_slash (App.list_path a))))]
      ++ [Stderr LNoEntries])%list,
     Exit 1).
Proof.
  intros Hrows Hlatest.
  assert (Hnone : Listing.parse_latest_from_listing html = None).
  { unfold Listing.parse_latest_from_listing, Re.finditer.
    destruct Hrows as [H | H].
    - now rewrite (finditer_from_nowhere Listing.row_re "<tr" row_re_opens html None 0 H).
    - now rewrite (finditer_from_nowhere Listing.row_re "</tr>" row_re_closes html None 0 H). }
  split; [exact Hnone |].
  unfold App.main, App.find_latest_mp4_path. now rewrite Hlatest, Hnone.
Qed.

Lemma listing_without_rows_resolves_nothing_witness :
  let a := App.mkArgs "printer" None false 180 true true "/local/aic_tlp" "." false in
  let w := App.mkWorld "id" 0 [(0, Watch.Probe true)] false (fun _ => Download.Fetched) in
  let html := Listing.q "<html><body><table><tr><td name='7'><a href='/local/aic_tlp/A/'>A</a></td></table></body></html>" in
  App.main Url.urljoin_paths Url.gmtime_ok_64 a (App.Page html) w =
    ([Stdout (LFetching "http://printer/local/aic_tlp/"); Stderr LNoEntries], Exit 1).
Proof.
  intros a w html.
  apply (listing_without_rows_resolves_nothing Url.urljoin_paths Url.gmtime_ok_64 a html w).
  - right. vm_compute. reflexivity.
  - reflexivity.
Defined.

(** ** An attempt that breaks off *)

Section BrokenAttempt.
Import Download.
Local Open Scope list_scope.

Variable answers : nat -> attempt.
Variables url dest : string.
Variable retries : Z.
Variable backoff : Q.
Variable verbose : bool.

Local Abbreviation go := (attempts answers url dest retries backoff verbose).

Lemma attempts_broken (todo : nat) (n : Z) (w : Q) (k : Z) (e : string) :
  n + Z.of_nat todo = retries + 1 ->
  n <= k <= retries ->
  (forall j, n <= j < k -> answers (Z.to_nat j) <> Fetched) ->
  answers (Z.to_nat k) = Broken e ->
  In (OpenWrite dest) (snd (go todo n w)).
Proof.
  revert n w. induction todo as [|todo IH]; intros n w Htodo Hk Hbefore Hbroken; [lia |].
  rewrite attempts_turn. cbv zeta.
  destruct (Z.eq_dec n k) as [-> | Hne].
  - rewrite Hbroken. cbn [cause_of].
    destruct (k =? retries); cbn [snd]; apply in_or_app; right; now left.
  - assert (Hn : answers (Z.to_nat n) <> Fetched) by (apply Hbefore; lia).
    destruct (cause_of (answers (Z.to_nat n))) as [c|] eqn:Hc;
      [| apply cause_of_none in Hc; contradiction].
    assert (Last : (n =? retries) = false) by (apply Z.eqb_neq; lia).
    rewrite Last. cbn [snd].
    apply in_or_app. right. apply in_or_app. right. right.
    apply IH; [lia | lia | | exact Hbroken].
    intros j Hj. apply Hbefore. lia.
Qed.

End BrokenAttempt.

(** X19.  A download is not all or nothing.  When an attempt breaks off
    after the destination was opened, and no attempt before it got the
    file, the destination has been created or truncated, whatever the
    later attempts do; and when no later attempt gets the file either, the
    download fails with the destination in that state. *)
Theorem broken_attempt_leaves_partial_file
    (answers : nat -> Download.attempt) (url dest : string)
    (retries : Z) (backoff : Q) (verbose : bool) (k : Z) (e : string) :
  1 <= k <= retries ->
  (forall j, 1 <= j < k -> answers (Z.to_nat j) <> Download.Fetched) ->
  answers (Z.to_nat k) = Download.Broken e ->
  let r := Download.download_file answers url dest retries backoff verbose in
  In (OpenWrite dest) (snd r) /\
  ((forall j, k < j <= retries -> answers (Z.to_nat j) <> Download.Fetched) ->
   fst r = false).
Proof.
  intros Hk Hbefore Hbroken r. subst r. unfold Download.download_file. split.
  - apply (attempts_broken answers url dest retries backoff verbose _ 1 1 k e);
      [rewrite Z2Nat.id; lia | lia | exact Hbefore | exact Hbroken].
  - intros Hafter.
    destruct (fst (Download.attempts answers url dest retries backoff verbose
                     (Z.to_nat retries) 1 1)) eqn:F; [| reflexivity].
    apply attempts_succeed_iff in F; [| lia | rewrite Z2Nat.id; lia].
    destruct F as (j & Hj & Fj).
    destruct (Z.lt_trichotomy j k) as [Lt | [-> | Gt]].
    + exfalso. apply (Hbefore j); [lia | exact Fj].
    + rewrite Hbroken in Fj. discriminate.
    + exfalso. apply (Hafter j); [lia | exact Fj].
Qed.

Lemma broken_attempt_leaves_partial_file_witness :
  let answers := fun n => match n with
                          | 2%nat => Download.Broken "Connection reset by peer"
                          | _ => Download.Refused "HTTP Error 404"
                          end in
  let r := Download.download_file answers "http://printer/A.mp4" "out/A.mp4" 5 (3 # 2) false in
  In (OpenWrite "out/A.mp4") (snd r) /\ fst r = false.
Proof.
  intros answers r.
  destruct (broken_attempt_leaves_partial_file answers "http://printer/A.mp4" "out/A.mp4"
              5 (3 # 2) false 2 "Connection reset by peer") as [Hin Hfail].
  - lia.
  - intros j Hj. assert (j = 1) as -> by lia. discriminate.
  - reflexivity.
  - split; [exact Hin |]. apply Hfail.
    intros j Hj.
    assert (j = 3 \/ j = 4 \/ j = 5) as [-> | [-> | ->]] by lia; discriminate.
Defined.

(** ** The request, sent back *)

(** X6.  A confirmation is matched on the path alone.  The request the
    program builds for a path [p], sent back to it with any request id and
    any timestamp, is what the push watcher waits for exactly when [p] is
    the target path: then the watcher sets its flag and returns.  For any
    other path it goes on waiting with its flag unset; it never raises on
    such a message, and the poll watcher and its flag are left as they
    are. *)
Theorem confirmation_matches_on_path_alone
    (verbose : bool) (target p request_id : string) (stamp : Z) (st : Watch.state) :
  Watch.tws st = Watch.Running ->
  Watch.ws_ready st = false ->
  let echo := Push.Doc (Push.make_export_cmd p request_id stamp) in
  let st' := Watch.ws_waiter_turn verbose target st (Push.RecvMsg echo) in
  (p = target -> Watch.ws_ready st' = true /\ Watch.tws st' = Watch.Finished) /\
  (p <> target -> Watch.ws_ready st' = false /\ Watch.tws st' = Watch.Running) /\
  Watch.http_ready st' = Watch.http_ready st /\
  Watch.thttp st' = Watch.thttp st.
Proof.
  intros Ht Hw echo st'. subst st' echo. unfold Watch.ws_waiter_turn. rewrite Ht, Hw.
  assert (V : snd (Push.on_message verbose target
                     (Push.Doc (Push.make_export_cmd p request_id stamp)))
              = if String.eqb p target then Push.Confirmed else Push.Continue).
  { unfold Push.on_message, Push.make_export_cmd. simpl.
    destruct (String.eqb p target); reflexivity. }
  destruct (Push.on_message verbose target _) as [out v]. simpl in V. subst v.
  destruct (String.eqb p target) eqn:E.
  - apply String.eqb_eq in E. simpl.
    split; [auto |]. split; [intros N; contradiction | auto].
  - apply String.eqb_neq in E. simpl.
    split; [intros N; contradiction |]. split; auto.
Qed.

Lemma confirmation_matches_on_path_alone_witness :
  let st := Watch.ws_waiter_turn false "/local/aic_tlp/A.mp4" Watch.initial
              (Push.RecvMsg (Push.Doc (Push.make_export_cmd "/local/aic_tlp/A.mp4"
                                         "0123456789abcdef0123456789abcdef" 1700000000000))) in
  Watch.ws_ready st = true /\ Watch.tws st = Watch.Finished.
Proof.
  apply (confirmation_matches_on_path_alone false "/local/aic_tlp/A.mp4"
           "/local/aic_tlp/A.mp4" "0123456789abcdef0123456789abcdef" 1700000000000
           Watch.initial); reflexivity.
Defined.

(** ** The heads-up line *)

(** The heads-up line is not among what follows it: the line with the
    URL, or the directory, the download and its result. *)
Ltac after_ready u H Hdl :=
  exfalso; destruct u; [destruct H as [H | []]; discriminate |];
  rewrite !in_app_iff in H; destruct H as [H | [H | H]];
  [ destruct H as [H | []]; discriminate
  | let D := fresh "D" in destruct (Hdl _ H) as [D _]; discriminate
  | destruct (fst (Download.download_file _ _ _ _ _ _));
    destruct H as [H | []]; discriminate ].

(** X20.  The heads-up line is printed in one situation only: a check was
    asked for, the push flag is set when the wait returns, the poll flag
    is not, and the probe made after the watch does not find the file
    either.  When the poll flag is set no such probe is made: what it would
    answer changes nothing the run does. *)
Theorem heads_up_only_after_push_alone
    (w : App.world) (host target : string) (check : bool) (max_wait : Z)
    (verbose : bool) (download_dir : string) (url_only : bool) :
  let st0 := fst (Watch.wait verbose target max_wait Watch.initial (App.trace w)) in
  let r := App.run w host target check max_wait verbose download_dir url_only in
  (In (Stdout LHeadsUp) (App.effects r) <->
   check = true /\ Watch.ws_ready st0 = true /\ Watch.http_ready st0 = false /\
   App.post_probe w = false) /\
  (Watch.http_ready st0 = true ->
   forall other,
     App.effects
       (App.run (App.mkWorld (App.request_id w) (App.now_ms w) (App.trace w) other
                             (App.answers w))
                host target check max_wait verbose download_dir url_only)
     = App.effects r).
Proof.
  intros st0 r. subst r. split.
  - rewrite run_effects. cbv zeta. fold st0.
    pose proof (wait_from_watch verbose target max_wait (App.trace w) Watch.initial eq_refl)
      as Hshown. fold st0 in Hshown.
    apply from_watch_is_harmless in Hshown. rewrite Forall_forall in Hshown.
    pose proof (attempts_effects (App.answers w) (App.http_url_of host target)
                  (Path.join download_dir (Path.basename target))
                  Download.default_retries Download.default_backoff verbose
                  (Z.to_nat Download.default_retries) 1 1) as Hdl.
    rewrite Forall_forall in Hdl.
    fold (Download.download_file (App.answers w) (App.http_url_of host target)
            (Path.join download_dir (Path.basename target))
            Download.default_retries Download.default_backoff verbose) in Hdl.
    rewrite !in_app_iff. split.
    + intros [H | [H | H]].
      * destruct H as [H | [H | []]]; discriminate.
      * destruct (Hshown _ H) as (_ & _ & N). discriminate.
      * destruct (Watch.ws_ready st0) eqn:W, (Watch.http_ready st0) eqn:P; cbn [orb] in H;
          try (destruct H as [H | []]; discriminate);
          rewrite !in_app_iff in H; destruct H as [H | [H | H]];
          try (destruct H as [H | []]; discriminate).
        -- rewrite andb_false_r in H. contradiction.
        -- after_ready url_only H Hdl.
        -- destruct check, (App.post_probe w); simpl in H; try contradiction. auto.
        -- after_ready url_only H Hdl.
        -- rewrite andb_false_r in H. contradiction.
        -- after_ready url_only H Hdl.
    + intros (-> & W & P & Q). rewrite W, P, Q. right. right. cbn.
      right. now left.
  - intros P other. rewrite !run_effects. cbv zeta.
    cbn [App.trace App.answers App.request_id App.now_ms App.post_probe]. fold st0.
    rewrite P. cbn [negb]. now rewrite !andb_false_r.
Qed.
